(** * payloadtool.py: the pbzx stream decompressor and the payload walker

    A shallow embedding of [src/payloadtool.py].  Python integers are [Z],
    [bytes] objects are lists of [byte], [str] objects are lists of Unicode
    code points.  Exceptions are values of [exn]; a computation returns a
    [result].  Loops whose termination is not structural run on fuel and
    report [OutOfFuel] when it is exhausted, so that termination is a
    theorem and not an assumption. *)

From Stdlib Require Import ZArith Bool Lia String Ascii Strings.Byte List.
Import ListNotations.
Local Open Scope Z_scope.

Set Implicit Arguments.

(** ** Bytes, text and Python sequence operations *)

Definition bytes := list byte.

(** A Python [str]: a sequence of code points. *)
Definition text := list Z.

Definition byte_val (b : byte) : Z := Z.of_N (Byte.to_N b).

(** [len(x)] as a Python integer. *)
Definition len {A} (l : list A) : Z := Z.of_nat (length l).

(** Index normalisation of a slice bound for a sequence of length [n]:
    a negative bound counts from the end, and every bound is clamped. *)
Definition clamp_index (n i : Z) : Z :=
  if i <? 0 then Z.max 0 (i + n) else Z.min i n.

(** [b[lo:hi]] *)
Definition py_slice {A} (b : list A) (lo hi : Z) : list A :=
  let l := clamp_index (len b) lo in
  let h := clamp_index (len b) hi in
  firstn (Z.to_nat (h - l)) (skipn (Z.to_nat l) b).

(** ** Exceptions and results *)

Inductive exn : Type :=
| StructError                 (* struct.error: buffer of the wrong size *)
| UnicodeDecodeError          (* bytes.decode('utf-8') on malformed input *)
| LZMAError                   (* lzma.decompress rejects its input *)
| KeyError (k : Z)            (* dict lookup of a missing key *)
| TypeError                   (* arithmetic on None *)
| PyException (msg : string). (* raise Exception(msg) *)

Inductive result (A : Type) : Type :=
| Ok (a : A)
| Raise (e : exn)
| OutOfFuel.

Arguments Ok {A} a.
Arguments Raise {A} e.
Arguments OutOfFuel {A}.

Definition bind {A B} (m : result A) (k : A -> result B) : result B :=
  match m with
  | Ok a => k a
  | Raise e => Raise e
  | OutOfFuel => OutOfFuel
  end.

Notation "x <- m ;; k" := (bind m (fun x => k))
  (at level 61, m at next level, right associativity).
Notation "' p <- m ;; k" := (bind m (fun x => let p := x in k))
  (at level 61, p pattern, m at next level, right associativity).

Definition is_ok {A} (r : result A) : Prop :=
  match r with Ok _ => True | _ => False end.

(** ** [struct.unpack] with big-endian formats *)

(** Unsigned big-endian integer held in a byte string. *)
Definition be_uint (bs : bytes) : Z :=
  fold_left (fun acc b => acc * 256 + byte_val b) bs 0.

(** Signed (two's complement) big-endian integer. *)
Definition be_sint (bs : bytes) : Z :=
  let u := be_uint bs in
  let w := 2 ^ (8 * len bs) in
  if u <? w / 2 then u else u - w.

(** The field of [n] bytes at offset [off]. *)
Definition field (bs : bytes) (off n : nat) : bytes := firstn n (skipn off bs).

(** ** [bytes.decode('utf-8')]

    The strict UTF-8 decoder: shortest forms only, no surrogates, nothing
    above U+10FFFF. *)

Definition is_cont (b : byte) : bool :=
  (128 <=? byte_val b) && (byte_val b <=? 191).

Definition in_range (lo hi : Z) (b : byte) : bool :=
  (lo <=? byte_val b) && (byte_val b <=? hi).

Fixpoint utf8_decode (bs : bytes) : option text :=
  match bs with
  | [] => Some []
  | b0 :: r0 =>
    let v0 := byte_val b0 in
    if v0 <? 128 then option_map (cons v0) (utf8_decode r0)
    else if in_range 194 223 b0 then
      match r0 with
      | b1 :: r1 =>
        if is_cont b1
        then option_map (cons ((v0 - 192) * 64 + (byte_val b1 - 128)))
                        (utf8_decode r1)
        else None
      | _ => None
      end
    else if in_range 224 239 b0 then
      match r0 with
      | b1 :: b2 :: r2 =>
        let lo := if v0 =? 224 then 160 else 128 in
        let hi := if v0 =? 237 then 159 else 191 in
        if in_range lo hi b1 && is_cont b2
        then option_map (cons ((v0 - 224) * 4096 + (byte_val b1 - 128) * 64
                               + (byte_val b2 - 128)))
                        (utf8_decode r2)
        else None
      | _ => None
      end
    else if in_range 240 244 b0 then
      match r0 with
      | b1 :: b2 :: b3 :: r3 =>
        let lo := if v0 =? 240 then 144 else 128 in
        let hi := if v0 =? 244 then 143 else 191 in
        if in_range lo hi b1 && is_cont b2 && is_cont b3
        then option_map (cons ((v0 - 240) * 262144 + (byte_val b1 - 128) * 4096
                               + (byte_val b2 - 128) * 64 + (byte_val b3 - 128)))
                        (utf8_decode r3)
        else None
      | _ => None
      end
    else None
  end.

Definition decode_utf8 (bs : bytes) : result text :=
  match utf8_decode bs with
  | Some t => Ok t
  | None => Raise UnicodeDecodeError
  end.

(** ASCII literals, for writing byte strings and texts in examples. *)
Definition b_ (s : string) : bytes := list_byte_of_string s.
Definition s_ (s : string) : text := map byte_val (list_byte_of_string s).

(** ** File-like objects

    [readheader], [savedata] and [processpayload] use their [fh] argument
    only through [fh.read(n)] and [fh.seek(n, whence)]. *)

Class FileLike (F : Type) : Type := {
  fh_read : F -> Z -> result (bytes * F);
  fh_seek : F -> Z -> Z -> result F
}.

(** An ordinary binary file opened for reading, as the bytes that remain
    after its position: [read(n)] returns at most [n] bytes, and everything
    when [n] is negative. *)
Definition file_read (f : bytes) (n : Z) : bytes * bytes :=
  if n <? 0 then (f, [])
  else (firstn (Z.to_nat n) f, skipn (Z.to_nat n) f).

(** ** The entry header *)

Record Header : Type := mkHeader {
  unk1 : Z;
  type : Z;
  filesize : Z;
  timestamp : Z;
  attr : Z;
  namelen : Z;
  uid : Z;
  gid : Z;
  filemode : Z;
  name : text
}.

(** [struct.unpack(">BBQQLHhhH", hdr)]: the nine fields of a 30-byte
    buffer; any other length raises [struct.error].  The name is not set
    yet. *)
Definition unpack_header (hdr : bytes) : result Header :=
  if (length hdr =? 30)%nat then
    Ok {| unk1 := be_uint (field hdr 0 1);
          type := be_uint (field hdr 1 1);
          filesize := be_uint (field hdr 2 8);
          timestamp := be_uint (field hdr 10 8);
          attr := be_uint (field hdr 18 4);
          namelen := be_uint (field hdr 22 2);
          uid := be_sint (field hdr 24 2);
          gid := be_sint (field hdr 26 2);
          filemode := be_uint (field hdr 28 2);
          name := [] |}
  else Raise StructError.

Definition set_name (o : Header) (nm : text) : Header :=
  {| unk1 := unk1 o; type := type o; filesize := filesize o;
     timestamp := timestamp o; attr := attr o; namelen := namelen o;
     uid := uid o; gid := gid o; filemode := filemode o; name := nm |}.

Definition set_unk1 (o : Header) (v : Z) : Header :=
  {| unk1 := v; type := type o; filesize := filesize o;
     timestamp := timestamp o; attr := attr o; namelen := namelen o;
     uid := uid o; gid := gid o; filemode := filemode o; name := name o |}.

(** ** Command-line arguments, output and the tally *)

Record Args : Type := mkArgs {
  output : option text;   (* --output, None when absent *)
  listing : bool          (* --list *)
}.

(** Truth value of [args.output]: [None] and the empty string are false. *)
Definition output_dir (args : Args) : option text :=
  match output args with
  | Some (c :: d) => Some (c :: d)
  | _ => None
  end.

(** What the walk does to the outside world, in order. *)
Inductive event : Type :=
| EvSave (path : text) (data : bytes)      (* file written by savedata *)
| EvSymlink (content path : text)          (* os.symlink(content, name) *)
| EvPrintEntry (kind mode flags owner group size mtime : Z) (nm suffix : text)
| EvPrintNote (v : Z)                      (* NOTE: field unk1 == ... *)
| EvPrintFound (files dirs links : Z).

(** A Python dict with integer keys and values. *)
Definition dict := list (Z * Z).

Fixpoint dict_get (d : dict) (k : Z) : result Z :=
  match d with
  | [] => Raise (KeyError k)
  | (k', v) :: d' => if k' =? k then Ok v else dict_get d' k
  end.

Fixpoint dict_set (d : dict) (k v : Z) : dict :=
  match d with
  | [] => [(k, v)]
  | (k', v') :: d' => if k' =? k then (k, v) :: d' else (k', v') :: dict_set d' k v
  end.

(** [d[k] += 1] *)
Definition dict_incr (d : dict) (k : Z) : result dict :=
  v <- dict_get d k ;; Ok (dict_set d k (v + 1)).

(** ** The walker *)

Section Walker.

Context {F : Type} `{FileLike F}.

(** [readheader(fh)]: [None] stands for the bare [return]. *)
Definition readheader (fh : F) : result (option Header * F) :=
  '(hdr, fh) <- fh_read fh 30 ;;
  if len hdr =? 0 then Ok (None, fh)
  else
    o <- unpack_header hdr ;;
    '(nm, fh) <- fh_read fh (namelen o) ;;
    nm <- decode_utf8 nm ;;
    Ok (Some (set_name o nm), fh).

(** The copy loop of [savedata]; [written] collects what went to [of]. *)
Fixpoint savedata_loop (fuel : nat) (fh : F) (size : Z) (written : bytes)
  : result (bytes * F) :=
  if size >? 0 then
    match fuel with
    | O => OutOfFuel
    | S fuel =>
      let wanted := Z.min 0x100000 size in
      '(data, fh) <- fh_read fh wanted ;;
      if len data =? 0 then Ok (written, fh)
      else savedata_loop fuel fh (size - wanted) (written ++ data)
    end
  else Ok (written, fh).

(** Every round of the copy loop takes [min(0x100000, size)] off [size]. *)
Definition savedata_fuel (size : Z) : nat := S (Z.to_nat (size / 0x100000)).

Definition savedata (path : text) (fh : F) (size : Z) : result (event * F) :=
  '(written, fh) <- savedata_loop (savedata_fuel size) fh size [] ;;
  Ok (EvSave path written, fh).

Definition createlink (path content : text) : event := EvSymlink content path.

Definition join_path (dir nm : text) : text := dir ++ s_ "/" ++ nm.

(** Lines 93-102 of [processpayload]: the dispatch on the entry type.
    Returns the listing suffix, the file-system effects and the stream. *)
Definition dispatch (args : Args) (hdr : Header) (fh : F)
  : result (text * list event * F) :=
  if type hdr =? 3 then
    '(raw, fh) <- fh_read fh (filesize hdr) ;;
    link <- decode_utf8 raw ;;
    let suffix := s_ " -> " ++ link in
    match output_dir args with
    | Some dir => Ok (suffix, [createlink (join_path dir (name hdr)) link], fh)
    | None => Ok (suffix, [], fh)
    end
  else
    match (type hdr =? 1), output_dir args with
    | true, Some dir =>
      '(ev, fh) <- savedata (join_path dir (name hdr)) fh (filesize hdr) ;;
      Ok ([], [ev], fh)
    | _, _ =>
      fh <- fh_seek fh (filesize hdr) 1 ;;
      Ok ([], [], fh)
    end.

(** Lines 104-107: the listing of one entry. *)
Definition list_entry (args : Args) (hdr : Header) (suffix : text) : list event :=
  if listing args then
    EvPrintEntry (type hdr) (filemode hdr) (attr hdr) (uid hdr) (gid hdr)
                 (filesize hdr) (timestamp hdr) (name hdr) suffix ::
    (if negb (unk1 hdr =? 0x10) then [EvPrintNote (unk1 hdr)] else [])
  else [].

(** The state of the [while True] loop. *)
Record walk_state : Type := mkWalk {
  w_fh : F;
  w_count : dict;
  w_out : list event
}.

(** One round of the loop; [false] is the [break]. *)
Definition walk_step (args : Args) (w : walk_state) : result (bool * walk_state) :=
  '(hdr, fh) <- readheader (w_fh w) ;;
  match hdr with
  | None => Ok (false, {| w_fh := fh; w_count := w_count w; w_out := w_out w |})
  | Some hdr =>
    '(suffix, evs, fh) <- dispatch args hdr fh ;;
    let out := w_out w ++ evs ++ list_entry args hdr suffix in
    count <- dict_incr (w_count w) (type hdr) ;;
    Ok (true, {| w_fh := fh; w_count := count; w_out := out |})
  end.

(** The loop, for at most [fuel] rounds. *)
Fixpoint walk_loop (fuel : nat) (args : Args) (w : walk_state) : result walk_state :=
  match fuel with
  | O => OutOfFuel
  | S fuel =>
    '(continue, w) <- walk_step args w ;;
    if continue then walk_loop fuel args w else Ok w
  end.

Definition initial_count : dict := [(1, 0); (2, 0); (3, 0)].

(** [processpayload(fh, args)], with a bound on the number of entries. *)
Definition processpayload (fuel : nat) (fh : F) (args : Args)
  : result (list event * F) :=
  w <- walk_loop fuel args {| w_fh := fh; w_count := initial_count; w_out := [] |} ;;
  c1 <- dict_get (w_count w) 1 ;;
  c2 <- dict_get (w_count w) 2 ;;
  c3 <- dict_get (w_count w) 3 ;;
  Ok (w_out w ++ [EvPrintFound c1 c2 c3], w_fh w).

(** A caller's sequence of calls on a file-like object. *)
Inductive op : Type :=
| OpRead (size : Z)
| OpSeek (size whence : Z).

(** Runs the calls in order; returns what the reads returned. *)
Fixpoint run_ops (ops : list op) (fh : F) : result (list bytes * F) :=
  match ops with
  | [] => Ok ([], fh)
  | OpRead size :: ops =>
    '(data, fh) <- fh_read fh size ;;
    '(outs, fh) <- run_ops ops fh ;;
    Ok (data :: outs, fh)
  | OpSeek size whence :: ops =>
    fh <- fh_seek fh size whence ;;
    run_ops ops fh
  end.

End Walker.

(** What a computation on a stream returns, without the stream. *)
Definition outcome {A F} (r : result (A * F)) : result A :=
  '(a, _) <- r ;; Ok a.

(** ** A plain forward-only byte stream

    The bytes to come, with nothing in between: the reference against which
    the decompressor is compared.  [seek] accepts what the decompressor's
    accepts. *)
#[global] Instance flat_file_like : FileLike bytes := {|
  fh_read f n := Ok (file_read f n);
  fh_seek f size whence :=
    if negb (whence =? 1) || (size <? 0)
    then Raise (PyException "only relative forward seek supported")
    else Ok (skipn (Z.to_nat size) f)
|}.

(** [sim models r r0]: the computation [r] on a stream does what [r0] does
    on the plain byte stream, and leaves a stream that presents what [r0]
    leaves. *)
Definition sim {A F} (models : F -> bytes -> Prop)
  (r : result (A * F)) (r0 : result (A * bytes)) : Prop :=
  match r0 with
  | Ok (a, L') => exists s', r = Ok (a, s') /\ models s' L'
  | Raise e => r = Raise e
  | OutOfFuel => r = OutOfFuel
  end.

(** ** Streams that present a byte sequence

    [models s L] says that the bytes still to come out of [s] are [L].  A
    stream is lawful when [read] and forward [seek] act on it as on a plain
    byte sequence: [read(n)] hands out the first [n] bytes (all of them when
    fewer are left) and both move on by as much. *)

Class Lawful (F : Type) `{FileLike F} (models : F -> bytes -> Prop) : Prop := {
  read_lawful : forall s L n, models s L -> 0 <= n ->
    exists s', fh_read s n = Ok (firstn (Z.to_nat n) L, s')
               /\ models s' (skipn (Z.to_nat n) L);
  seek_lawful : forall s L n, models s L -> 0 <= n ->
    exists s', fh_seek s n 1 = Ok s' /\ models s' (skipn (Z.to_nat n) L)
}.

(** What the dispatch on the entry type comes to when the payload is all
    there: the payload is the first [filesize] bytes to come, and the
    stream is left behind them. *)
Definition dispatch_spec (args : Args) (hdr : Header) (L : bytes)
  : result (text * list event * bytes) :=
  let payload := firstn (Z.to_nat (filesize hdr)) L in
  let rest := skipn (Z.to_nat (filesize hdr)) L in
  if type hdr =? 3 then
    link <- decode_utf8 payload ;;
    match output_dir args with
    | Some dir => Ok (s_ " -> " ++ link, [EvSymlink link (join_path dir (name hdr))], rest)
    | None => Ok (s_ " -> " ++ link, [], rest)
    end
  else
    match (type hdr =? 1), output_dir args with
    | true, Some dir => Ok ([], [EvSave (join_path dir (name hdr)) payload], rest)
    | _, _ => Ok ([], [], rest)
    end.

(** The output without the notes on the reserved marker. *)
Definition is_note (e : event) : bool :=
  match e with EvPrintNote _ => true | _ => false end.

Definition strip_notes (out : list event) : list event :=
  filter (fun e => negb (is_note e)) out.

(** The same for computations on the loop state of the walker. *)
Definition same_walk {F} (models : F -> bytes -> Prop)
  (w : @walk_state F) (w0 : @walk_state bytes) : Prop :=
  w_count w = w_count w0 /\ w_out w = w_out w0 /\ models (w_fh w) (w_fh w0).

Definition sim_walk {A F} (models : F -> bytes -> Prop)
  (r : result (A * @walk_state F)) (r0 : result (A * @walk_state bytes)) : Prop :=
  match r0 with
  | Ok (a, w0) => exists w, r = Ok (a, w) /\ same_walk models w w0
  | Raise e => r = Raise e
  | OutOfFuel => r = OutOfFuel
  end.

(** ** The pbzx stream decompressor *)

Module pbzx_decompressor.

Record t : Type := mk {
  fh : bytes;               (* the raw input, from its position on *)
  buffer : option bytes;
  bufferpos : option Z
}.

(** [struct.unpack(">4sQ", filehdr)] *)
Definition unpack_4sQ (b : bytes) : result (bytes * Z) :=
  if (length b =? 12)%nat then Ok (field b 0 4, be_uint (field b 4 8))
  else Raise StructError.

(** [struct.unpack(">QQ", chunkhdr)] *)
Definition unpack_QQ (b : bytes) : result (Z * Z) :=
  if (length b =? 16)%nat then Ok (be_uint (field b 0 8), be_uint (field b 8 8))
  else Raise StructError.

Definition bytes_eqb (a b : bytes) : bool :=
  if list_eq_dec Byte.byte_eq_dec a b then true else false.

(** [__init__] *)
Definition init (raw : bytes) : result t :=
  let '(filehdr, raw) := file_read raw 12 in
  '(magic, maxchunk) <- unpack_4sQ filehdr ;;
  if negb (bytes_eqb magic (b_ "pbzx"))
  then Raise (PyException "not a pbzx payload")
  else Ok {| fh := raw; buffer := None; bufferpos := Some 0 |}.

Section Codec.

(** [lzma.decompress]; [None] when it raises [LZMAError]. *)
Variable decompress : bytes -> option bytes.

(** [next]: read and decompress the next chunk.  The method touches
    nothing of [self] but [self.fh], so it is given the raw input and
    returns it advanced.  The [None] result is the bare [return] at the end
    of the raw input. *)
Definition next (raw : bytes) : result (option bytes * bytes) :=
  let '(chunkhdr, raw) := file_read raw 16 in
  if len chunkhdr =? 0 then Ok (None, raw)
  else
    '(fullsize, compsize) <- unpack_QQ chunkhdr ;;
    let '(xzdata, raw) := file_read raw compsize in
    match decompress xzdata with
    | Some out => Ok (Some out, raw)
    | None => Raise LZMAError
    end.

(** Lines 139-141 and 162-164: fetch a chunk when there is no buffer. *)
Definition refill (self : t) : result t :=
  match buffer self with
  | None =>
    '(b, raw) <- next (fh self) ;;
    Ok {| fh := raw; buffer := b; bufferpos := Some 0 |}
  | Some _ => Ok self
  end.

(** [self.bufferpos] as an operand of [-] and [+]: [None] is a
    [TypeError]. *)
Definition position (pos : option Z) : result Z :=
  match pos with
  | Some p => Ok p
  | None => Raise TypeError
  end.

Fixpoint read_loop (fuel : nat) (self : t) (size : Z) (data : bytes)
  : result (bytes * t) :=
  if size >? 0 then
    match fuel with
    | O => OutOfFuel
    | S fuel =>
      self <- refill self ;;
      match buffer self with
      | None => Ok (data, self)
      | Some buf =>
        pos <- position (bufferpos self) ;;
        let want := Z.min size (len buf - pos) in
        let endpos := pos + want in
        let data := data ++ py_slice buf pos endpos in
        let self :=
          if endpos =? len buf
          then {| fh := fh self; buffer := None; bufferpos := None |}
          else {| fh := fh self; buffer := Some buf; bufferpos := Some endpos |} in
        read_loop fuel self (size - want) data
      end
    end
  else Ok (data, self).

Fixpoint seek_loop (fuel : nat) (self : t) (size : Z) : result t :=
  if size >? 0 then
    match fuel with
    | O => OutOfFuel
    | S fuel =>
      self <- refill self ;;
      match buffer self with
      | None => Ok self
      | Some buf =>
        pos <- position (bufferpos self) ;;
        let want := Z.min size (len buf - pos) in
        let endpos := pos + want in
        let self :=
          if endpos =? len buf
          then {| fh := fh self; buffer := None; bufferpos := None |}
          else {| fh := fh self; buffer := Some buf; bufferpos := Some endpos |} in
        seek_loop fuel self (size - want)
      end
    end
  else Ok self.

(** Rounds granted to the loops of [read] and [seek]: one for the buffer
    at hand, and one for every byte of raw input left. *)
Definition rounds (self : t) : nat := S (S (length (fh self))).

(** [read(size)] *)
Definition read (self : t) (size : Z) : result (bytes * t) :=
  read_loop (rounds self) self size [].

(** [seek(size, whence)] *)
Definition seek (self : t) (size whence : Z) : result t :=
  if negb (whence =? 1) || (size <? 0)
  then Raise (PyException "only relative forward seek supported")
  else seek_loop (rounds self) self size.


(** The cursor after [want] more bytes of [buf] are taken at [pos]. *)
Definition moved (raw : bytes) (buf : bytes) (pos want : Z) : t :=
  if pos + want =? len buf
  then {| fh := raw; buffer := None; bufferpos := None |}
  else {| fh := raw; buffer := Some buf; bufferpos := Some (pos + want) |}.

(** What bounds the rounds still to run: the raw input left, and the
    buffer at hand. *)
Definition measure (self : t) : nat :=
  (length (fh self) + match buffer self with Some _ => 1 | None => 0 end)%nat.

(** *** The logical stream

    The cursor invariant: the offset lies within the buffer. *)
Definition wf (self : t) : Prop :=
  match buffer self, bufferpos self with
  | Some buf, Some pos => 0 <= pos <= len buf
  | Some _, None => False
  | None, _ => True
  end.

(** What is left of the current buffer. *)
Definition pending (self : t) : bytes :=
  match buffer self, bufferpos self with
  | Some buf, Some pos => skipn (Z.to_nat pos) buf
  | _, _ => []
  end.

(** [stream_of raw rest]: the raw input [raw] is a sequence of chunks that
    [next] accepts one after the other up to the end of the input, and
    [rest] is the concatenation of what they decompress to. *)
Inductive stream_of : bytes -> bytes -> Prop :=
| stream_end : stream_of [] []
| stream_chunk raw out raw' rest :
    next raw = Ok (Some out, raw') ->
    stream_of raw' rest ->
    stream_of raw (out ++ rest).

(** [fetched raw raw' outs]: successive calls of [next] starting on the raw
    input [raw] return the buffers [outs], in this order, and leave the raw
    input at [raw'].  Every call decompresses the chunk that starts where
    the call before it stopped. *)
Inductive fetched : bytes -> bytes -> list bytes -> Prop :=
| fetched_none raw : fetched raw raw []
| fetched_next raw out raw1 raw' outs :
    next raw = Ok (Some out, raw1) ->
    fetched raw1 raw' outs ->
    fetched raw raw' (out :: outs).

(** [models self L]: the bytes still to come out of [self] are [L]. *)
Definition models (self : t) (L : bytes) : Prop :=
  wf self /\ exists rest, stream_of (fh self) rest /\ L = pending self ++ rest.

(** The raw input is exhausted and no buffer is held. *)
Definition at_end (self : t) : Prop := fh self = [] /\ buffer self = None.

#[local] Instance file_like : FileLike t := {| fh_read := read; fh_seek := seek |}.

End Codec.

End pbzx_decompressor.

(** ** Building concrete archives *)

Module Build.

Definition byte_of (z : Z) : byte :=
  match Byte.of_N (Z.to_N (z mod 256)) with
  | Some b => b
  | None => Byte.x00
  end.

(** Big-endian encoding of [v] on [n] bytes. *)
Fixpoint be_bytes (n : nat) (v : Z) : bytes :=
  match n with
  | O => []
  | S n => be_bytes n (v / 256) ++ [byte_of v]
  end.

(** A stand-in for the xz codec with the one property of it that matters
    here: a stream knows where it ends.  A stream is a length byte followed
    by exactly that many bytes; anything else is rejected. *)
Definition stored (bs : bytes) : option bytes :=
  match bs with
  | [] => None
  | n :: rest => if len rest =? byte_val n then Some rest else None
  end.

Definition stored_pack (data : bytes) : bytes := byte_of (len data) :: data.

(** A chunk record: expanded size, compressed size, compressed bytes. *)
Definition chunk (data : bytes) : bytes :=
  be_bytes 8 (len data) ++ be_bytes 8 (len (stored_pack data)) ++ stored_pack data.

Definition pbzx_file (chunks : list bytes) : bytes :=
  b_ "pbzx" ++ be_bytes 8 0x1000000 ++ concat (map chunk chunks).

(** The 30 header bytes of an entry. *)
Definition header_bytes (h : Header) : bytes :=
  be_bytes 1 (unk1 h) ++ be_bytes 1 (type h) ++ be_bytes 8 (filesize h)
  ++ be_bytes 8 (timestamp h) ++ be_bytes 4 (attr h) ++ be_bytes 2 (namelen h)
  ++ be_bytes 2 (uid h) ++ be_bytes 2 (gid h) ++ be_bytes 2 (filemode h).

(** An entry of the given kind with an ASCII name, and its payload. *)
Definition entry (kind : Z) (nm : string) (payload : bytes) : bytes :=
  header_bytes {| unk1 := 0x10; type := kind; filesize := len payload;
                  timestamp := 0; attr := 0; namelen := len (b_ nm);
                  uid := 0; gid := 0; filemode := 0x1a4; name := s_ nm |}
  ++ b_ nm ++ payload.

(** The decompressor opened on a raw input that starts with a good magic. *)
Definition opened (raw : bytes) : pbzx_decompressor.t :=
  match pbzx_decompressor.init raw with
  | Ok d => d
  | _ => pbzx_decompressor.mk [] None (Some 0)
  end.

(** *** Sample inputs *)

Definition codec_file_like : FileLike pbzx_decompressor.t :=
  pbzx_decompressor.file_like stored.

(** A raw input whose only chunk declares 10 compressed bytes while 3 are
    left: a whole stream of the codec, holding "ab". *)
Definition overdeclared_raw : bytes :=
  be_bytes 8 2 ++ be_bytes 8 10 ++ stored_pack (b_ "ab").

(** The same ten bytes as one chunk, and cut in three with an empty chunk
    in between. *)
Definition one_chunk : bytes := chunk (b_ "0123456789").
Definition many_chunks : bytes :=
  chunk (b_ "012") ++ chunk [] ++ chunk (b_ "3456") ++ chunk (b_ "789").

(** A cursor in the middle of a buffer. *)
Definition mid_buffer : pbzx_decompressor.t :=
  pbzx_decompressor.mk (chunk (b_ "56789")) (Some (b_ "01234")) (Some 2).

(** An entry header of the given kind for a payload of five bytes. *)
Definition five_bytes (kind : Z) : Header :=
  {| unk1 := 0x10; type := kind; filesize := 5; timestamp := 0; attr := 0;
     namelen := 1; uid := 0; gid := 0; filemode := 0x1a4; name := s_ "l" |}.

(** A cursor with "a/b/crest" to come, across a chunk boundary. *)
Definition link_cursor : pbzx_decompressor.t :=
  pbzx_decompressor.mk (chunk (b_ "b/c") ++ chunk (b_ "rest"))
                       (Some (b_ "xxa/")) (Some 2).

Definition to_out : Args := {| output := Some (s_ "out"); listing := true |}.
Definition list_only : Args := {| output := None; listing := true |}.
Definition quiet : Args := {| output := None; listing := false |}.

(** One symbolic link "l" to "a/b/c". *)
Definition symlink_archive : bytes := pbzx_file [entry 3 "l" (b_ "a/b/c")].

(** An entry of kind 4 in front of a file. *)
Definition unknown_kind_archive : bytes :=
  pbzx_file [entry 4 "u" (b_ "zz") ++ entry 1 "x.txt" (b_ "abcd")].
Definition file_archive : bytes := pbzx_file [entry 1 "x.txt" (b_ "abcd")].

(** A header that declares a name of five bytes, and two bytes behind it. *)
Definition short_name_archive : bytes :=
  pbzx_file [header_bytes {| unk1 := 0x10; type := 1; filesize := 0;
                             timestamp := 0; attr := 0; namelen := 5;
                             uid := 0; gid := 0; filemode := 0x1a4; name := [] |}
             ++ b_ "ab"].

(** A directory entry "d" with the given reserved marker, alone in an
    archive. *)
Definition dir_header (marker : Z) : Header :=
  {| unk1 := marker; type := 2; filesize := 0; timestamp := 0; attr := 0;
     namelen := 1; uid := 0; gid := 0; filemode := 0x1ed; name := [] |}.

Definition marker_archive (marker : Z) : bytes :=
  pbzx_file [header_bytes (dir_header marker) ++ b_ "d"].

Definition odd_marker_archive : bytes := marker_archive 0x11.

(** The bytes of that entry behind its marker. *)
Definition behind_marker : bytes := skipn 1 (header_bytes (dir_header 0)) ++ b_ "d".

End Build.

(** * More of payloadtool.py *)

(** ** The cursor between calls

    The cursor as [read] and [seek] leave it: a buffer that is held has
    bytes still to hand out. *)
Definition strict_wf (self : pbzx_decompressor.t) : Prop :=
  match pbzx_decompressor.buffer self, pbzx_decompressor.bufferpos self with
  | Some buf, Some pos => 0 <= pos < len buf
  | Some _, None => False
  | None, _ => True
  end.

(** ** [main]: the decompressor opened on the payload file, then the walk *)
Definition extract (decompress : bytes -> option bytes) (fuel : nat)
           (payload : bytes) (args : Args)
  : result (list event * pbzx_decompressor.t) :=
  d <- pbzx_decompressor.init payload ;;
  processpayload (H := pbzx_decompressor.file_like decompress) fuel d args.

(** ** Reading the output of a walk *)

(** The lines printed, as opposed to what is done to the file system. *)
Definition is_print (e : event) : bool :=
  match e with
  | EvSave _ _ | EvSymlink _ _ => false
  | _ => true
  end.

(** The listing lines of the entries of kind [k]. *)
Definition is_entry_of (k : Z) (e : event) : bool :=
  match e with
  | EvPrintEntry kind _ _ _ _ _ _ _ _ => kind =? k
  | _ => false
  end.

Definition listed (k : Z) (out : list event) : Z :=
  len (filter (is_entry_of k) out).

(** ** Archives as lists of entries

    An entry as it lies on the stream: the header, the bytes of the name and
    the payload. *)
Record Entry : Type := mkEntry {
  e_hdr : Header;
  e_name : bytes;
  e_payload : bytes
}.

Definition encode_entry (e : Entry) : bytes :=
  Build.header_bytes (e_hdr e) ++ e_name e ++ e_payload e.

(** The fields fit the format [">BBQQLHhhH"]. *)
Definition in_format (h : Header) : Prop :=
  0 <= unk1 h < 2 ^ 8 /\ 0 <= type h < 2 ^ 8 /\
  0 <= filesize h < 2 ^ 64 /\ 0 <= timestamp h < 2 ^ 64 /\
  0 <= attr h < 2 ^ 32 /\ 0 <= namelen h < 2 ^ 16 /\
  - 2 ^ 15 <= uid h < 2 ^ 15 /\ - 2 ^ 15 <= gid h < 2 ^ 15 /\
  0 <= filemode h < 2 ^ 16.

(** The header describes the name and the payload that follow it, the kind
    is a file, a directory or a link, and a link's payload is text. *)
Definition well_formed (e : Entry) : Prop :=
  in_format (e_hdr e) /\
  namelen (e_hdr e) = len (e_name e) /\
  filesize (e_hdr e) = len (e_payload e) /\
  utf8_decode (e_name e) = Some (name (e_hdr e)) /\
  (type (e_hdr e) = 1 \/ type (e_hdr e) = 2 \/ type (e_hdr e) = 3) /\
  (type (e_hdr e) = 3 -> utf8_decode (e_payload e) <> None).

(** What the walk is to do for one entry: the file stored or the link made
    under the output directory, then the listing. *)
Definition entry_output (args : Args) (e : Entry) : list event :=
  let h := e_hdr e in
  if type h =? 3 then
    match utf8_decode (e_payload e) with
    | Some link =>
      match output_dir args with
      | Some dir => [EvSymlink link (join_path dir (name h))]
      | None => []
      end ++ list_entry args h (s_ " -> " ++ link)
    | None => []
    end
  else
    match (type h =? 1), output_dir args with
    | true, Some dir => [EvSave (join_path dir (name h)) (e_payload e)]
    | _, _ => []
    end ++ list_entry args h [].

(** The number of entries of kind [k]. *)
Definition kinds (es : list Entry) (k : Z) : Z :=
  len (filter (fun e => type (e_hdr e) =? k) es).

(** ** The listing helpers [entryname] and [modestring] *)

Definition text_eqb (a b : text) : bool :=
  if list_eq_dec Z.eq_dec a b then true else false.

(** The character of a digit, lower case above nine. *)
Definition digit_char (d : Z) : Z := if d <? 10 then 48 + d else 87 + d.

Fixpoint digits_loop (fuel : nat) (base n : Z) (acc : text) : text :=
  match fuel with
  | O => acc
  | S fuel =>
    let acc := digit_char (n mod base) :: acc in
    if n / base =? 0 then acc else digits_loop fuel base (n / base) acc
  end.

(** The digits of [n >= 0] in a base of two or more; a number has no more
    digits than bits. *)
Definition digits (base n : Z) : text :=
  digits_loop (S (Z.to_nat (Z.log2 n))) base n [].

(** ["%0<width>x" % n] and ["%0<width>o" % n]: the sign, then zeros up to
    the width, then the digits. *)
Definition format_int (base width n : Z) : text :=
  let body := digits base (Z.abs n) in
  let sign := if n <? 0 then s_ "-" else [] in
  sign ++ repeat 48 (Z.to_nat (width - len sign - len body)) ++ body.

Definition entrytypes : list (Z * text) :=
  [(1, s_ "file"); (2, s_ "dir"); (3, s_ "link")].

Fixpoint lookup (d : list (Z * text)) (k : Z) : option text :=
  match d with
  | [] => None
  | (k', v) :: d => if k' =? k then Some v else lookup d k
  end.

(** [entryname(typ)] *)
Definition entryname (typ : Z) : text :=
  match lookup entrytypes typ with
  | Some nm => nm
  | None => s_ "?" ++ format_int 16 2 typ ++ s_ "?"
  end.

(** [modestring(mode)] *)
Definition modestring (mode : Z) : text := format_int 8 6 mode.

(** The number that a string of octal digits writes. *)
Definition octal_value (t : text) : Z :=
  fold_left (fun acc c => acc * 8 + (c - 48)) t 0.

(** The [n] integers from [z] on. *)
Fixpoint range_from (n : nat) (z : Z) : list Z :=
  match n with
  | O => []
  | S n => z :: range_from n (z + 1)
  end.

(** The integers from 0 up to [n], [n] left out. *)
Definition upto (n : nat) : list Z := range_from n 0.

(** ** [makedirs] and the paths it is given

    The file system is known through [os.access(path, os.F_OK)] and
    [os.mkdir(path)] alone. *)

Inductive os_error : Type :=
| ENOENT    (* FileNotFoundError *)
| EEXIST.   (* FileExistsError *)

Inductive os_result (A : Type) : Type :=
| OsOk (a : A)
| OsError (e : os_error) (path : text).

Arguments OsOk {A} a.
Arguments OsError {A} e path.

Class FileSystem (FS : Type) : Type := {
  os_access : FS -> text -> bool;
  os_mkdir : FS -> text -> os_result FS
}.

(** [s.split(sep)] for a separator of one character. *)
Fixpoint split (sep : Z) (s : text) : list text :=
  match s with
  | [] => [[]]
  | c :: r =>
    if c =? sep then [] :: split sep r
    else match split sep r with
         | part :: parts => (c :: part) :: parts
         | [] => [[c]]
         end
  end.

Definition nonempty {A} (l : list A) : bool :=
  match l with [] => false | _ => true end.

(** Lines 48-50: the path grown by one part. *)
Definition extend (path part : text) : text :=
  (if nonempty path then path ++ s_ "/" else path) ++ part.

Section Makedirs.

Context {FS : Type} `{FileSystem FS}.

(** The [for] loop of [makedirs]. *)
Fixpoint makedirs_loop (fs : FS) (path : text) (parts : list text) : os_result FS :=
  match parts with
  | [] => OsOk fs
  | part :: parts =>
    let path := extend path part in
    if negb (os_access fs path) then
      match os_mkdir fs path with
      | OsOk fs => makedirs_loop fs path parts
      | OsError e p => OsError e p
      end
    else makedirs_loop fs path parts
  end.

(** [makedirs(fullpath)] *)
Definition makedirs (fs : FS) (fullpath : text) : os_result FS :=
  makedirs_loop fs [] (split 47 fullpath).

End Makedirs.

(** The paths that the loop of [makedirs] goes through. *)
Fixpoint paths_from (path : text) (parts : list text) : list text :=
  match parts with
  | [] => []
  | part :: parts => extend path part :: paths_from (extend path part) parts
  end.

Definition prefixes (fullpath : text) : list text :=
  paths_from [] (split 47 fullpath).

(** [s.rfind(c)]: the last index of [c], or -1. *)
Fixpoint rfind_from (c : Z) (s : text) (i last : Z) : Z :=
  match s with
  | [] => last
  | x :: r => rfind_from c r (i + 1) (if x =? c then i else last)
  end.

Definition rfind (s : text) (c : Z) : Z := rfind_from c s 0 (-1).

(** [s.rstrip(c)] *)
Fixpoint rstrip (c : Z) (s : text) : text :=
  match s with
  | [] => []
  | x :: r =>
    match rstrip c r with
    | [] => if x =? c then [] else [x]
    | r' => x :: r'
    end
  end.

(** [os.path.dirname(p)] of [posixpath]. *)
Definition dirname (p : text) : text :=
  let i := rfind p 47 + 1 in
  let head := py_slice p 0 i in
  if nonempty head && negb (text_eqb head (repeat 47 (length head)))
  then rstrip 47 head
  else head.

(** Lines 57 and 71: the directory of the file or link is made first. *)
Definition prepare {FS} `{FileSystem FS} (fs : FS) (path : text) : os_result FS :=
  makedirs fs (dirname path).

(** A file system for examples: the paths that exist, taken as they are
    written.  The empty path is no file, and cannot be made. *)
#[global] Instance listed_paths : FileSystem (list text) := {|
  os_access fs p := existsb (text_eqb p) fs;
  os_mkdir fs p :=
    if negb (nonempty p) then OsError ENOENT p
    else if existsb (text_eqb p) fs then OsError EEXIST p
    else OsOk (p :: fs)
|}.

(** * Properties *)

(** ** Sequences and slices *)

Lemma len_nonneg {A} (l : list A) : 0 <= len l.
Proof. unfold len. lia. Qed.

Lemma len_app {A} (a b : list A) : len (a ++ b) = len a + len b.
Proof. unfold len. rewrite length_app. lia. Qed.

Lemma len_zero_nil {A} (l : list A) : len l = 0 -> l = [].
Proof. destruct l; [reflexivity | unfold len; simpl; lia]. Qed.

Lemma len_firstn {A} (l : list A) n :
  0 <= n -> len (firstn (Z.to_nat n) l) = Z.min n (len l).
Proof. intros Hn. unfold len. rewrite length_firstn. lia. Qed.

Lemma len_skipn {A} (l : list A) n :
  0 <= n -> len (skipn (Z.to_nat n) l) = Z.max 0 (len l - n).
Proof. intros Hn. unfold len. rewrite length_skipn. lia. Qed.

Lemma py_slice_inside {A} (b : list A) lo hi :
  0 <= lo <= hi -> hi <= len b ->
  py_slice b lo hi = firstn (Z.to_nat (hi - lo)) (skipn (Z.to_nat lo) b).
Proof.
  intros Hlo Hhi. unfold py_slice, clamp_index.
  destruct (Z.ltb_spec lo 0); [lia |].
  destruct (Z.ltb_spec hi 0); [lia |].
  rewrite !Z.min_l by lia. reflexivity.
Qed.

Lemma firstn_skipn_add {A} (l : list A) a b :
  firstn a l ++ firstn b (skipn a l) = firstn (a + b) l.
Proof.
  revert l; induction a as [| a IH]; intros l; simpl; [reflexivity |].
  destruct l as [| x l]; simpl.
  - now rewrite firstn_nil.
  - now rewrite IH.
Qed.

Lemma skipn_skipn_add {A} (l : list A) a b :
  skipn b (skipn a l) = skipn (a + b) l.
Proof.
  revert l; induction a as [| a IH]; intros l; simpl; [reflexivity |].
  destruct l as [| x l]; simpl; [now rewrite skipn_nil | apply IH].
Qed.

Lemma file_read_nonneg (f : bytes) n :
  0 <= n -> file_read f n = (firstn (Z.to_nat n) f, skipn (Z.to_nat n) f).
Proof. intros Hn. unfold file_read. destruct (Z.ltb_spec n 0); [lia | reflexivity]. Qed.

Lemma be_uint_acc_nonneg (bs : bytes) acc :
  0 <= acc -> 0 <= fold_left (fun a b => a * 256 + byte_val b) bs acc.
Proof.
  revert acc; induction bs as [| b bs IH]; intros acc Hacc; simpl; [exact Hacc |].
  apply IH. unfold byte_val. lia.
Qed.

Lemma be_uint_nonneg (bs : bytes) : 0 <= be_uint bs.
Proof. apply be_uint_acc_nonneg. lia. Qed.

(** ** Results *)

Lemma bind_ok {A B} (m : result A) (k : A -> result B) b :
  bind m k = Ok b -> exists a, m = Ok a /\ k a = Ok b.
Proof. destruct m; simpl; intros E; try discriminate. eauto. Qed.

Lemma bind_not_out_of_fuel {A B} (m : result A) (k : A -> result B) :
  m <> OutOfFuel -> (forall a, m = Ok a -> k a <> OutOfFuel) ->
  bind m k <> OutOfFuel.
Proof. destruct m; simpl; intros Hm Hk; [now apply Hk | discriminate | congruence]. Qed.

(** ** The decompressor *)

Module pbzx_facts.
Import pbzx_decompressor.

Section Codec.

Variable decompress : bytes -> option bytes.

#[local] Abbreviation next := (next decompress).
#[local] Abbreviation refill := (refill decompress).
#[local] Abbreviation read_loop := (read_loop decompress).
#[local] Abbreviation seek_loop := (seek_loop decompress).
#[local] Abbreviation read := (read decompress).
#[local] Abbreviation seek := (seek decompress).
#[local] Abbreviation stream_of := (stream_of decompress).
#[local] Abbreviation models := (models decompress).

(** *** [next] *)

Lemma unpack_QQ_ok b v : unpack_QQ b = Ok v -> length b = 16%nat.
Proof.
  unfold unpack_QQ. destruct (Nat.eqb_spec (length b) 16); [auto | discriminate].
Qed.

Lemma next_nil : next [] = Ok (None, []).
Proof. reflexivity. Qed.

(** What [next] does on an input that holds a whole chunk header: no check
    of the number of compressed bytes read, the codec decides alone. *)
Lemma next_unfold raw :
  (16 <= length raw)%nat ->
  let compsize := be_uint (field (firstn 16 raw) 8 8) in
  next raw =
  match decompress (firstn (Z.to_nat compsize) (skipn 16 raw)) with
  | Some out => Ok (Some out, skipn (Z.to_nat compsize) (skipn 16 raw))
  | None => Raise LZMAError
  end.
Proof.
  intros Hraw compsize. unfold pbzx_decompressor.next.
  rewrite file_read_nonneg by lia. change (Z.to_nat 16) with 16%nat.
  assert (Hl : length (firstn 16 raw) = 16%nat) by (rewrite length_firstn; lia).
  unfold len; rewrite Hl. change (Z.of_nat 16 =? 0) with false. cbv iota.
  unfold unpack_QQ; rewrite Hl. change (16 =? 16)%nat with true. cbv iota.
  cbn [bind]. fold compsize.
  rewrite file_read_nonneg by apply be_uint_nonneg. reflexivity.
Qed.

Lemma next_short raw :
  (0 < length raw < 16)%nat -> next raw = Raise StructError.
Proof.
  intros Hraw. unfold pbzx_decompressor.next.
  rewrite file_read_nonneg by lia. change (Z.to_nat 16) with 16%nat.
  assert (Hl : length (firstn 16 raw) = length raw) by (rewrite length_firstn; lia).
  unfold len; rewrite Hl.
  destruct (Z.eqb_spec (Z.of_nat (length raw)) 0); [lia |].
  unfold unpack_QQ; rewrite Hl.
  destruct (Nat.eqb_spec (length raw) 16); [lia | reflexivity].
Qed.

Lemma raw_cases (raw : bytes) :
  raw = [] \/ (0 < length raw < 16)%nat \/ (16 <= length raw)%nat.
Proof. destruct raw; [now left | right; simpl; lia]. Qed.

Lemma next_not_out_of_fuel raw : next raw <> OutOfFuel.
Proof.
  destruct (raw_cases raw) as [-> | [Hs | Hl]].
  - discriminate.
  - rewrite next_short by assumption. discriminate.
  - rewrite (next_unfold _ Hl). destruct (decompress _); discriminate.
Qed.

(** A chunk was fetched: the header was whole, the codec accepted the bytes
    read under it, and the raw input stands behind them. *)
Lemma next_some_inv raw out raw' :
  next raw = Ok (Some out, raw') ->
  (16 <= length raw)%nat /\
  exists n : nat,
    decompress (firstn n (skipn 16 raw)) = Some out /\ raw' = skipn (16 + n) raw.
Proof.
  intros E. destruct (raw_cases raw) as [-> | [Hs | Hl]].
  - rewrite next_nil in E. discriminate.
  - rewrite next_short in E by assumption. discriminate.
  - split; [exact Hl |]. rewrite (next_unfold _ Hl) in E.
    exists (Z.to_nat (be_uint (field (firstn 16 raw) 8 8))).
    destruct (decompress _) as [o |]; [| discriminate].
    rewrite <- skipn_skipn_add. split; congruence.
Qed.

Lemma next_none_inv raw raw' :
  next raw = Ok (None, raw') -> raw = [] /\ raw' = [].
Proof.
  intros E. destruct (raw_cases raw) as [-> | [Hs | Hl]].
  - rewrite next_nil in E. split; congruence.
  - rewrite next_short in E by assumption. discriminate.
  - rewrite (next_unfold _ Hl) in E. destruct (decompress _); discriminate.
Qed.

(** A chunk fetched moves the raw input on by at least its header. *)
Lemma next_advances raw out raw' :
  next raw = Ok (Some out, raw') -> (length raw' + 16 <= length raw)%nat.
Proof.
  intros E. apply next_some_inv in E. destruct E as (Hl & n & _ & ->).
  rewrite length_skipn. lia.
Qed.

(** The raw input a chunk leaves is a suffix of the one it was read from. *)
Lemma next_suffix raw b raw' :
  next raw = Ok (b, raw') -> exists consumed, raw = consumed ++ raw'.
Proof.
  intros E. destruct b as [out |].
  - apply next_some_inv in E. destruct E as (Hl & n & _ & ->).
    exists (firstn (16 + n) raw). symmetry. apply firstn_skipn.
  - apply next_none_inv in E. destruct E as [-> ->]. now exists [].
Qed.

(** *** The loops of [read] and [seek] *)

Lemma read_loop_done fuel self size data :
  size <= 0 -> read_loop fuel self size data = Ok (data, self).
Proof.
  intros Hs. destruct fuel; simpl; rewrite Z.gtb_ltb;
    destruct (Z.ltb_spec 0 size); (lia || reflexivity).
Qed.

Lemma seek_loop_done fuel self size :
  size <= 0 -> seek_loop fuel self size = Ok self.
Proof.
  intros Hs. destruct fuel; simpl; rewrite Z.gtb_ltb;
    destruct (Z.ltb_spec 0 size); (lia || reflexivity).
Qed.

(** One round of [read] with a buffer at hand. *)
Lemma read_loop_buffer fuel raw buf pos size data :
  0 < size ->
  let want := Z.min size (len buf - pos) in
  read_loop (S fuel) (mk raw (Some buf) (Some pos)) size data =
  read_loop fuel (moved raw buf pos want) (size - want)
            (data ++ py_slice buf pos (pos + want)).
Proof.
  intros Hs want. simpl. rewrite Z.gtb_ltb.
  destruct (Z.ltb_spec 0 size); [| lia]. reflexivity.
Qed.

(** One round of [read] without a buffer: the next chunk is fetched. *)
Lemma read_loop_fetch fuel raw pos size data :
  0 < size ->
  read_loop (S fuel) (mk raw None pos) size data =
  match next raw with
  | Ok (Some buf, raw') =>
    read_loop (S fuel) (mk raw' (Some buf) (Some 0)) size data
  | Ok (None, raw') => Ok (data, mk raw' None (Some 0))
  | Raise e => Raise e
  | OutOfFuel => OutOfFuel
  end.
Proof.
  intros Hs. simpl. rewrite Z.gtb_ltb.
  destruct (Z.ltb_spec 0 size); [| lia].
  unfold pbzx_decompressor.refill; simpl.
  destruct (next raw) as [[[buf |] raw'] | e |]; reflexivity.
Qed.

Lemma read_loop_typeerror fuel raw buf size data :
  0 < size ->
  read_loop (S fuel) (mk raw (Some buf) None) size data = Raise TypeError.
Proof.
  intros Hs. simpl. rewrite Z.gtb_ltb.
  destruct (Z.ltb_spec 0 size); [| lia]. reflexivity.
Qed.

(** [seek] is [read] with the bytes thrown away. *)
Lemma seek_loop_read_loop fuel : forall self size data,
  seek_loop fuel self size =
  match read_loop fuel self size data with
  | Ok (_, self') => Ok self'
  | Raise e => Raise e
  | OutOfFuel => OutOfFuel
  end.
Proof.
  induction fuel as [| fuel IH]; intros self size data; simpl.
  - destruct (size >? 0); reflexivity.
  - destruct (size >? 0); [| reflexivity].
    destruct (refill self) as [self1 | e |]; simpl; try reflexivity.
    destruct (buffer self1) as [buf |]; [| reflexivity].
    destruct (position (bufferpos self1)) as [pos | e |]; simpl; try reflexivity.
    apply IH.
Qed.

(** *** Termination *)

Lemma moved_cases raw buf pos size :
  0 < size ->
  let want := Z.min size (len buf - pos) in
  (moved raw buf pos want = mk raw None None)
  \/ (size - want = 0).
Proof.
  intros Hs want. unfold moved.
  destruct (Z.eqb_spec (pos + want) (len buf)); [now left | right].
  subst want. lia.
Qed.

Lemma read_loop_terminates fuel : forall self size data,
  (measure self < fuel)%nat -> read_loop fuel self size data <> OutOfFuel.
Proof.
  induction fuel as [| fuel IH]; intros self size data Hm; [lia |].
  destruct (Z.le_gt_cases size 0) as [Hs | Hs].
  { rewrite read_loop_done by assumption. discriminate. }
  assert (Hbuf : forall raw buf pos, (length raw < fuel)%nat ->
            read_loop (S fuel) (mk raw (Some buf) (Some pos)) size data <> OutOfFuel).
  { intros raw buf pos Hr. rewrite read_loop_buffer by lia.
    destruct (moved_cases raw buf pos Hs) as [-> | E].
    - apply IH. unfold measure; simpl. lia.
    - rewrite read_loop_done by lia. discriminate. }
  destruct self as [raw [buf |] pos]; unfold measure in Hm; simpl in Hm.
  - destruct pos as [pos |].
    + apply Hbuf. lia.
    + rewrite read_loop_typeerror by lia. discriminate.
  - rewrite read_loop_fetch by lia.
    destruct (next raw) as [[[buf |] raw'] | e |] eqn:N; try discriminate.
    + apply Hbuf. apply next_advances in N. lia.
    + now apply next_not_out_of_fuel in N.
Qed.

(** *** What a call of [read] hands out *)

#[local] Abbreviation fetched := (fetched decompress).

Lemma pending_moved raw buf pos want :
  0 <= pos -> 0 <= want -> pos + want <= len buf ->
  py_slice buf pos (pos + want) ++ pending (moved raw buf pos want)
  = skipn (Z.to_nat pos) buf
  /\ len (py_slice buf pos (pos + want)) = want.
Proof.
  intros Hp Hw Hl. rewrite py_slice_inside by lia.
  replace (pos + want - pos) with want by lia.
  split.
  - unfold moved. destruct (Z.eqb_spec (pos + want) (len buf)) as [E | E];
      unfold pending; simpl.
    + rewrite app_nil_r. apply firstn_all2.
      rewrite length_skipn. unfold len in E. lia.
    + replace (Z.to_nat (pos + want)) with (Z.to_nat pos + Z.to_nat want)%nat by lia.
      rewrite <- skipn_skipn_add. apply firstn_skipn.
  - rewrite len_firstn by lia. rewrite len_skipn by lia. lia.
Qed.

Lemma wf_moved raw buf pos want :
  0 <= pos -> 0 <= want -> pos + want <= len buf -> wf (moved raw buf pos want).
Proof.
  intros Hp Hw Hl. unfold moved, wf.
  destruct (Z.eqb_spec (pos + want) (len buf)); simpl; [exact I | lia].
Qed.

Lemma fetched_app raw raw1 raw2 outs1 outs2 :
  fetched raw raw1 outs1 -> fetched raw1 raw2 outs2 ->
  fetched raw raw2 (outs1 ++ outs2).
Proof.
  induction 1 as [| raw out rawa rawb outs N F IH]; intros F2; simpl.
  - exact F2.
  - econstructor; eauto.
Qed.

(** The raw input moves forward only. *)
Lemma fetched_suffix raw raw' outs :
  fetched raw raw' outs -> exists consumed, raw = consumed ++ raw'.
Proof.
  induction 1 as [| raw out raw1 raw' outs N F [c IH]].
  - now exists [].
  - apply next_suffix in N. destruct N as [c0 ->]. subst raw1.
    exists (c0 ++ c). now rewrite app_assoc.
Qed.

(** Whenever a call of the loop of [read] returns: the bytes handed out,
    followed by what stays in the buffer, are what was in the buffer before,
    followed by the chunks fetched in between, each of them once. *)
Lemma read_loop_trace fuel : forall self size data data' self',
  wf self -> 0 <= size ->
  read_loop fuel self size data = Ok (data', self') ->
  wf self' /\
  exists outs got,
    fetched (fh self) (fh self') outs /\
    data' = data ++ got /\
    pending self ++ concat outs = got ++ pending self' /\
    len got <= size /\
    (len got < size -> at_end self').
Proof.
  induction fuel as [| fuel IH]; intros self size data data' self' Hwf Hsz E.
  { destruct (Z.le_gt_cases size 0) as [Hs | Hs].
    - rewrite read_loop_done in E by assumption. injection E as <- <-.
      split; [exact Hwf |]. exists [], []. rewrite !app_nil_r.
      repeat split; try constructor; unfold len in *; simpl in *; lia.
    - simpl in E. rewrite Z.gtb_ltb in E.
      destruct (Z.ltb_spec 0 size); [discriminate | lia]. }
  destruct (Z.le_gt_cases size 0) as [Hs | Hs].
  { rewrite read_loop_done in E by assumption. injection E as <- <-.
    split; [exact Hwf |]. exists [], []. rewrite !app_nil_r.
    repeat split; try constructor; unfold len in *; simpl in *; lia. }
  assert (Hbuf : forall raw buf pos, 0 <= pos <= len buf ->
    read_loop (S fuel) (mk raw (Some buf) (Some pos)) size data = Ok (data', self') ->
    wf self' /\
    exists outs got,
      fetched raw (fh self') outs /\ data' = data ++ got /\
      skipn (Z.to_nat pos) buf ++ concat outs = got ++ pending self' /\
      len got <= size /\ (len got < size -> at_end self')).
  { intros raw buf pos Hpos E1. rewrite read_loop_buffer in E1 by lia.
    set (want := Z.min size (len buf - pos)) in *.
    assert (Hw : 0 <= want) by (subst want; lia).
    assert (Hl : pos + want <= len buf) by (subst want; lia).
    destruct (pending_moved raw buf (proj1 Hpos) Hw Hl) as [Hpm Hlen].
    apply IH in E1; [| now apply wf_moved; lia | subst want; lia].
    destruct E1 as (Hwf' & outs & got & F & -> & P & Hle & Hend).
    split; [exact Hwf' |].
    exists outs, (py_slice buf pos (pos + want) ++ got).
    replace (fh (moved raw buf pos want)) with raw in F
      by (unfold moved; destruct (_ =? _); reflexivity).
    refine (conj _ (conj _ (conj _ (conj _ _)))).
    - exact F.
    - now rewrite app_assoc.
    - rewrite <- Hpm, <- !app_assoc. now rewrite P.
    - rewrite len_app, Hlen. lia.
    - rewrite len_app, Hlen. intros Hlt. apply Hend. lia. }
  destruct self as [raw [buf |] pos]; unfold wf in Hwf; simpl in Hwf.
  - destruct pos as [pos |]; [| contradiction].
    apply Hbuf in E; [| exact Hwf]. exact E.
  - rewrite read_loop_fetch in E by lia.
    destruct (next raw) as [[[buf |] raw'] | e |] eqn:N; try discriminate.
    + apply Hbuf in E; [| pose proof (len_nonneg buf); lia].
      destruct E as (Hwf' & outs & got & F & -> & P & Hle & Hend).
      split; [exact Hwf' |]. exists (buf :: outs), got. simpl fh.
      refine (conj _ (conj eq_refl (conj _ (conj Hle Hend)))).
      * econstructor; eauto.
      * simpl. rewrite <- P. replace (Z.to_nat 0) with 0%nat by lia.
        reflexivity.
    + injection E as <- <-. apply next_none_inv in N. destruct N as [-> ->].
      split; [exact I |]. exists [], []. rewrite !app_nil_r.
      repeat split; try constructor; unfold len in *; simpl in *; lia.
Qed.

(** *** Failures *)

Lemma next_raises raw e :
  next raw = Raise e -> e = StructError \/ e = LZMAError.
Proof.
  intros E. destruct (raw_cases raw) as [-> | [Hs | Hl]].
  - rewrite next_nil in E. discriminate.
  - rewrite next_short in E by assumption. left. congruence.
  - rewrite (next_unfold _ Hl) in E. destruct (decompress _); [discriminate |].
    right. congruence.
Qed.

(** From a state within the cursor invariant, [read] raises only what
    [next] raises. *)
Lemma read_loop_raises fuel : forall self size data e,
  wf self -> read_loop fuel self size data = Raise e ->
  e = StructError \/ e = LZMAError.
Proof.
  induction fuel as [| fuel IH]; intros self size data e Hwf E.
  { simpl in E. destruct (size >? 0); discriminate. }
  destruct (Z.le_gt_cases size 0) as [Hs | Hs].
  { rewrite read_loop_done in E by assumption. discriminate. }
  assert (Hbuf : forall raw buf pos, 0 <= pos <= len buf ->
    read_loop (S fuel) (mk raw (Some buf) (Some pos)) size data = Raise e ->
    e = StructError \/ e = LZMAError).
  { intros raw buf pos Hpos E1. rewrite read_loop_buffer in E1 by lia.
    apply IH in E1; [exact E1 |]. apply wf_moved; lia. }
  destruct self as [raw [buf |] pos]; unfold wf in Hwf; simpl in Hwf.
  - destruct pos as [pos |]; [| contradiction]. now apply Hbuf in E.
  - rewrite read_loop_fetch in E by lia.
    destruct (next raw) as [[[buf |] raw'] | e' |] eqn:N; try discriminate.
    + apply Hbuf in E; [exact E | pose proof (len_nonneg buf); lia].
    + injection E as <-. now apply next_raises in N.
Qed.

(** *** The stream presented *)

Lemma stream_of_nil rest : stream_of [] rest -> rest = [].
Proof.
  inversion 1 as [| raw out raw' rest' N S']; [reflexivity |].
  rewrite next_nil in N. discriminate.
Qed.

(** The chunks fetched are the front of the stream. *)
Lemma stream_fetched raw raw' outs :
  fetched raw raw' outs -> forall rest, stream_of raw rest ->
  exists rest', rest = concat outs ++ rest' /\ stream_of raw' rest'.
Proof.
  induction 1 as [| raw out raw1 raw' outs N F IH]; intros rest S.
  - now exists rest.
  - inversion S as [| raw0 out0 raw0' rest0 N0 S0]; subst.
    + rewrite next_nil in N. discriminate.
    + rewrite N in N0. injection N0 as <- <-.
      destruct (IH _ S0) as (rest' & -> & S').
      exists rest'. simpl. now rewrite app_assoc.
Qed.

Lemma read_loop_ok_fetch raw rest :
  stream_of raw rest -> forall fuel size data pos,
  (length raw < fuel)%nat ->
  is_ok (read_loop fuel (mk raw None pos) size data).
Proof.
  induction 1 as [| raw out raw' rest N S IH]; intros fuel size data pos Hf;
    (destruct (Z.le_gt_cases size 0) as [Hs | Hs];
     [rewrite read_loop_done by assumption; exact I |]);
    (destruct fuel as [| fuel]; [simpl in Hf; lia |]);
    rewrite read_loop_fetch by lia.
  - rewrite next_nil. exact I.
  - rewrite N. rewrite read_loop_buffer by lia.
    destruct (moved_cases raw' out 0 Hs) as [-> | E].
    + apply IH. apply next_advances in N. lia.
    + rewrite read_loop_done by lia. exact I.
Qed.

Lemma read_loop_ok self L fuel size data :
  models self L -> (measure self < fuel)%nat ->
  is_ok (read_loop fuel self size data).
Proof.
  intros (Hwf & rest & S & _) Hf.
  destruct self as [raw [buf |] pos]; unfold measure in Hf; simpl in *.
  - destruct (Z.le_gt_cases size 0) as [Hs | Hs];
      [rewrite read_loop_done by assumption; exact I |].
    destruct fuel as [| fuel]; [lia |].
    destruct pos as [pos |]; [| contradiction].
    rewrite read_loop_buffer by lia.
    destruct (moved_cases raw buf pos Hs) as [-> | E].
    + apply (read_loop_ok_fetch S). lia.
    + rewrite read_loop_done by lia. exact I.
  - apply (read_loop_ok_fetch S). lia.
Qed.

Lemma split_exact {A} (got rest : list A) n :
  length got = n -> firstn n (got ++ rest) = got /\ skipn n (got ++ rest) = rest.
Proof.
  intros <-. split.
  - rewrite firstn_app, Nat.sub_diag, firstn_all. simpl. apply app_nil_r.
  - rewrite skipn_app, Nat.sub_diag, skipn_all. reflexivity.
Qed.

(** On a stream whose chunks are all good, [read(size)] hands out the first
    [size] bytes to come, all of them when fewer are left, and leaves the
    others to come. *)
Lemma read_models self L size :
  models self L -> 0 <= size ->
  exists self',
    read self size = Ok (firstn (Z.to_nat size) L, self')
    /\ models self' (skipn (Z.to_nat size) L).
Proof.
  intros M Hsz. unfold pbzx_decompressor.read.
  assert (Hok := read_loop_ok (fuel := rounds self) size [] M).
  destruct (read_loop (rounds self) self size []) as [[data self'] | e |] eqn:E;
    try (exfalso; apply Hok; unfold rounds, measure; destruct (buffer self); lia).
  exists self'. destruct M as (Hwf & rest & S & ->).
  apply read_loop_trace in E; [| assumption | assumption].
  destruct E as (Hwf' & outs & got & F & -> & P & Hle & Hend). simpl.
  destruct (stream_fetched F S) as (rest' & -> & S').
  rewrite app_assoc, P, <- app_assoc.
  destruct (Z.eq_dec (len got) size) as [Heq | Hne].
  - destruct (split_exact got (pending self' ++ rest') (n := Z.to_nat size))
      as [-> ->]; [unfold len in Heq; lia |].
    split; [reflexivity |]. split; [assumption |]. now exists rest'.
  - destruct Hend as [Hfh Hb]; [lia |].
    rewrite Hfh in S'. apply stream_of_nil in S'. subst rest'.
    assert (Hp : pending self' = []) by (unfold pending; now rewrite Hb).
    rewrite Hp. simpl. rewrite app_nil_r.
    rewrite firstn_all2, skipn_all2 by (unfold len in *; lia).
    split; [reflexivity |]. split; [assumption |].
    exists []. rewrite Hfh, Hp. split; [constructor | reflexivity].
Qed.

Lemma seek_read self size :
  0 <= size ->
  seek self size 1 =
  match read self size with
  | Ok (_, self') => Ok self'
  | Raise e => Raise e
  | OutOfFuel => OutOfFuel
  end.
Proof.
  intros Hsz. unfold pbzx_decompressor.seek, pbzx_decompressor.read.
  change (1 =? 1) with true. simpl negb.
  destruct (Z.ltb_spec size 0); [lia |]. simpl orb. cbv iota.
  apply seek_loop_read_loop.
Qed.

Lemma seek_models self L size :
  models self L -> 0 <= size ->
  exists self', seek self size 1 = Ok self' /\ models self' (skipn (Z.to_nat size) L).
Proof.
  intros M Hsz. destruct (read_models M Hsz) as (self' & E & M').
  exists self'. rewrite seek_read by assumption. now rewrite E.
Qed.

#[local] Instance pbzx_file_like : FileLike t := file_like decompress.

#[local] Instance pbzx_lawful : Lawful models.
Proof. split; [exact read_models | exact seek_models]. Qed.

(** *** Rounds *)

(** Once the rounds granted suffice, more of them change nothing. *)
Lemma read_loop_more_fuel fuel : forall self size data k,
  read_loop fuel self size data <> OutOfFuel ->
  read_loop (fuel + k) self size data = read_loop fuel self size data.
Proof.
  induction fuel as [| fuel IH]; intros self size data k Hr.
  - destruct (Z.le_gt_cases size 0) as [Hs | Hs].
    + now rewrite !read_loop_done by assumption.
    + exfalso. apply Hr. simpl. rewrite Z.gtb_ltb.
      destruct (Z.ltb_spec 0 size); [reflexivity | lia].
  - simpl in Hr |- *. destruct (size >? 0); [| reflexivity].
    destruct (refill self) as [self1 | e |]; simpl in Hr |- *; try reflexivity.
    destruct (buffer self1) as [buf |]; [| reflexivity].
    destruct (position (bufferpos self1)) as [pos | e |]; simpl in Hr |- *;
      try reflexivity.
    now apply IH.
Qed.

(** An empty chunk: the buffer is dropped at once, nothing of the count
    asked for is used up, and the loop goes on to the chunk behind it. *)
Lemma read_loop_empty_chunk fuel raw raw' pos size data :
  0 < size -> next raw = Ok (Some [], raw') ->
  read_loop (S fuel) (mk raw None pos) size data
  = read_loop fuel (mk raw' None None) size data.
Proof.
  intros Hs N. rewrite read_loop_fetch, N by assumption.
  rewrite read_loop_buffer by assumption.
  change (len (@nil byte)) with 0.
  replace (Z.min size (0 - 0)) with 0 by lia.
  unfold moved, py_slice. simpl. rewrite app_nil_r.
  now replace (size - 0) with size by lia.
Qed.

Lemma read_terminates self size : read self size <> OutOfFuel.
Proof.
  apply read_loop_terminates. unfold rounds, measure.
  destruct (buffer self); lia.
Qed.

Lemma seek_terminates self size whence : seek self size whence <> OutOfFuel.
Proof.
  unfold pbzx_decompressor.seek.
  destruct (negb (whence =? 1) || (size <? 0)); [discriminate |].
  rewrite (seek_loop_read_loop _ _ _ []).
  pose proof (@read_terminates self size) as Hr.
  unfold pbzx_decompressor.read in Hr.
  destruct (read_loop (rounds self) self size []) as [[d s'] | e |];
    [discriminate | discriminate | contradiction].
Qed.

(** *** Sequences of calls *)

Lemma read_negative self size : size < 0 -> read self size = Ok ([], self).
Proof. intros Hs. apply read_loop_done. lia. Qed.

(** Two decompressors that present the same bytes answer every sequence of
    calls alike. *)
Lemma run_ops_models ops : forall s1 s2 L,
  models s1 L -> models s2 L ->
  outcome (run_ops ops s1) = outcome (run_ops ops s2).
Proof.
  induction ops as [| [size | size whence] ops IH]; intros s1 s2 L M1 M2.
  - reflexivity.
  - cbn [run_ops fh_read pbzx_file_like file_like].
    assert (Hd : exists data L' s1' s2',
               read s1 size = Ok (data, s1') /\ read s2 size = Ok (data, s2')
               /\ models s1' L' /\ models s2' L').
    { destruct (Z.lt_ge_cases size 0) as [Hs | Hs].
      - exists [], L, s1, s2. rewrite !read_negative by assumption. auto.
      - destruct (read_models M1 Hs) as (s1' & E1 & M1').
        destruct (read_models M2 Hs) as (s2' & E2 & M2'). eauto 10. }
    destruct Hd as (data & L' & s1' & s2' & -> & -> & M1' & M2').
    cbn [bind]. specialize (IH _ _ _ M1' M2'). unfold outcome in *.
    destruct (run_ops ops s1') as [[o1 f1] | e1 |],
             (run_ops ops s2') as [[o2 f2] | e2 |];
      simpl in *; congruence.
  - cbn [run_ops fh_seek pbzx_file_like file_like].
    destruct (Z.eq_dec whence 1) as [-> | Hw];
      [destruct (Z.lt_ge_cases size 0) as [Hs | Hs] |].
    + unfold pbzx_decompressor.seek.
      destruct (Z.ltb_spec size 0); [| lia]. reflexivity.
    + destruct (seek_models M1 Hs) as (s1' & -> & M1').
      destruct (seek_models M2 Hs) as (s2' & -> & M2').
      cbn [bind]. eapply IH; eassumption.
    + unfold pbzx_decompressor.seek.
      destruct (Z.eqb_spec whence 1); [contradiction |]. reflexivity.
Qed.

End Codec.

End pbzx_facts.

(** ** The walker on a lawful stream *)

Module walker_facts.

Lemma unpack_header_ok hdr o :
  unpack_header hdr = Ok o ->
  length hdr = 30%nat /\ 0 <= filesize o /\ 0 <= namelen o /\ name o = [].
Proof.
  unfold unpack_header. destruct (Nat.eqb_spec (length hdr) 30); [| discriminate].
  intros E. injection E as <-. simpl.
  repeat split; try apply be_uint_nonneg. assumption.
Qed.

Lemma unpack_header_short hdr :
  length hdr <> 30%nat -> unpack_header hdr = Raise StructError.
Proof.
  intros Hl. unfold unpack_header.
  destruct (Nat.eqb_spec (length hdr) 30); [contradiction | reflexivity].
Qed.

Lemma flat_read (L : bytes) n :
  0 <= n ->
  fh_read L n = Ok (firstn (Z.to_nat n) L, skipn (Z.to_nat n) L).
Proof. intros Hn. simpl. now rewrite file_read_nonneg. Qed.

Lemma flat_seek (L : bytes) n :
  0 <= n -> fh_seek L n 1 = Ok (skipn (Z.to_nat n) L).
Proof.
  intros Hn. simpl. destruct (Z.ltb_spec n 0); [lia | reflexivity].
Qed.

#[local] Arguments fh_read : simpl never.
#[local] Arguments fh_seek : simpl never.

#[global] Instance flat_lawful : Lawful (F := bytes) eq.
Proof.
  split; intros s L n -> Hn.
  - exists (skipn (Z.to_nat n) L). now rewrite flat_read.
  - exists (skipn (Z.to_nat n) L). now rewrite flat_seek.
Qed.

Section Loops.

Context {F : Type} `{FileLike F}.

Lemma savedata_loop_done fuel (fh : F) size written :
  size <= 0 -> savedata_loop fuel fh size written = Ok (written, fh).
Proof.
  intros Hs. destruct fuel; simpl; rewrite Z.gtb_ltb;
    destruct (Z.ltb_spec 0 size); (lia || reflexivity).
Qed.

Lemma savedata_loop_out_of_fuel (fh : F) size written :
  0 < size -> savedata_loop 0 fh size written = OutOfFuel.
Proof.
  intros Hs. simpl. rewrite Z.gtb_ltb.
  destruct (Z.ltb_spec 0 size); (lia || reflexivity).
Qed.

Lemma savedata_loop_step fuel (fh : F) size written :
  0 < size ->
  savedata_loop (S fuel) fh size written =
  bind (fh_read fh (Z.min 0x100000 size))
       (fun x => if len (fst x) =? 0 then Ok (written, snd x)
                 else savedata_loop fuel (snd x) (size - Z.min 0x100000 size)
                                    (written ++ fst x)).
Proof.
  intros Hs. simpl. rewrite Z.gtb_ltb.
  destruct (Z.ltb_spec 0 size); [| lia].
  destruct (fh_read fh (Z.min 1048576 size)) as [[data fh'] | e |]; reflexivity.
Qed.

Lemma readheader_nonneg (s : F) hdr s' :
  readheader s = Ok (Some hdr, s') -> 0 <= filesize hdr /\ 0 <= namelen hdr.
Proof.
  unfold readheader. intros E.
  apply bind_ok in E. destruct E as ([h s1] & _ & E).
  destruct (len h =? 0); [discriminate |].
  apply bind_ok in E. destruct E as (o & U & E).
  apply bind_ok in E. destruct E as ([nm s2] & _ & E).
  apply bind_ok in E. destruct E as (t & _ & E).
  injection E as <- _. apply unpack_header_ok in U. simpl. tauto.
Qed.

End Loops.

Section Sim.

Context {F : Type} `{FileLike F} (models : F -> bytes -> Prop) `{!Lawful models}.

Lemma sim_read s L n :
  models s L -> 0 <= n -> sim models (fh_read s n) (fh_read L n).
Proof.
  intros M Hn. rewrite flat_read by assumption.
  edestruct read_lawful as (s' & E & M'); [exact M | exact Hn |].
  simpl. eauto.
Qed.

(** Sequencing: [sim] goes through a [bind] whose continuations agree on
    every pair of a stream and the bytes it presents. *)
Lemma sim_bind {A B} (m : result (A * F)) (m0 : result (A * bytes))
      (k : A * F -> result (B * F)) (k0 : A * bytes -> result (B * bytes)) :
  sim models m m0 ->
  (forall a s L, m0 = Ok (a, L) -> models s L -> sim models (k (a, s)) (k0 (a, L))) ->
  sim models (bind m k) (bind m0 k0).
Proof.
  intros Hm Hk. destruct m0 as [[a L] | e |]; simpl in Hm.
  - destruct Hm as (s & -> & M). simpl. now apply Hk.
  - now subst m.
  - now subst m.
Qed.

Lemma sim_readheader s L :
  models s L -> sim models (readheader s) (readheader L).
Proof.
  intros M. unfold readheader.
  apply sim_bind; [apply sim_read; [assumption | lia] |].
  intros hdr s1 L1 _ M1. destruct (len hdr =? 0); [simpl; eauto |].
  destruct (unpack_header hdr) as [o | e |] eqn:U; cbn [bind]; try reflexivity.
  apply unpack_header_ok in U. destruct U as (_ & _ & Hn & _).
  apply sim_bind; [now apply sim_read |].
  intros nm s2 L2 _ M2.
  destruct (decode_utf8 nm) as [t | e |]; simpl; eauto.
Qed.

Lemma sim_savedata_loop fuel : forall s L size written,
  models s L ->
  sim models (savedata_loop fuel s size written) (savedata_loop fuel L size written).
Proof.
  induction fuel as [| fuel IH]; intros s L size written M;
    destruct (Z.le_gt_cases size 0) as [Hs | Hs];
    try (rewrite !savedata_loop_done by assumption; simpl; now eauto).
  - rewrite !savedata_loop_out_of_fuel by assumption. reflexivity.
  - rewrite !savedata_loop_step by assumption.
    apply sim_bind; [apply sim_read; [assumption | lia] |].
    intros data s1 L1 _ M1. cbn [fst snd].
    destruct (len data =? 0); [simpl; eauto | now apply IH].
Qed.

Lemma sim_savedata path s L size :
  models s L -> sim models (savedata path s size) (savedata path L size).
Proof.
  intros M. unfold savedata.
  apply sim_bind; [now apply sim_savedata_loop |].
  intros w s1 L1 _ M1. simpl. eauto.
Qed.

Lemma sim_dispatch args hdr s L :
  models s L -> 0 <= filesize hdr ->
  sim models (dispatch args hdr s) (dispatch args hdr L).
Proof.
  intros M Hsz. unfold dispatch. destruct (type hdr =? 3).
  - apply sim_bind; [now apply sim_read |].
    intros raw s1 L1 _ M1.
    destruct (decode_utf8 raw) as [link | e |]; simpl; try reflexivity.
    destruct (output_dir args); simpl; eauto.
  - assert (Hseek : sim models
              (fh <- fh_seek s (filesize hdr) 1 ;; Ok (@nil Z, @nil event, fh))
              (fh <- fh_seek L (filesize hdr) 1 ;; Ok (@nil Z, @nil event, fh))).
    { rewrite flat_seek by assumption.
      edestruct seek_lawful as (s' & E & M'); [exact M | exact Hsz |].
      rewrite E. simpl. eauto. }
    destruct (type hdr =? 1), (output_dir args) as [dir |]; try exact Hseek.
    apply sim_bind; [now apply sim_savedata |].
    intros ev s1 L1 _ M1. simpl. eauto.
Qed.

Lemma sim_walk_step args w w0 :
  same_walk models w w0 ->
  sim_walk models (walk_step args w) (walk_step args w0).
Proof.
  intros (Hc & Ho & M). unfold walk_step.
  pose proof (sim_readheader M) as Hr.
  destruct (readheader (w_fh w0)) as [[[hdr |] L1] | e |] eqn:R0; simpl in Hr.
  - destruct Hr as (s1 & -> & M1). cbn [bind].
    apply readheader_nonneg in R0. destruct R0 as [Hsz _].
    pose proof (sim_dispatch args hdr M1 Hsz) as Hd.
    destruct (dispatch args hdr L1) as [[[suffix evs] L2] | e |]; simpl in Hd.
    + destruct Hd as (s2 & -> & M2). cbn [bind]. rewrite Hc.
      destruct (dict_incr (w_count w0) (type hdr)) as [c | e |]; simpl;
        try reflexivity.
      eexists. split; [reflexivity |]. rewrite Ho. now repeat split.
    + rewrite Hd. reflexivity.
    + rewrite Hd. reflexivity.
  - destruct Hr as (s1 & -> & M1). simpl.
    eexists. split; [reflexivity |]. now repeat split.
  - rewrite Hr. reflexivity.
  - rewrite Hr. reflexivity.
Qed.

Lemma sim_walk_loop args fuel : forall w w0,
  same_walk models w w0 ->
  match walk_loop fuel args w0 with
  | Ok w0' => exists w', walk_loop fuel args w = Ok w' /\ same_walk models w' w0'
  | Raise e => walk_loop fuel args w = Raise e
  | OutOfFuel => walk_loop fuel args w = OutOfFuel
  end.
Proof.
  induction fuel as [| fuel IH]; intros w w0 S; [reflexivity |].
  cbn [walk_loop]. pose proof (sim_walk_step args S) as Hs.
  destruct (walk_step args w0) as [[[|] w1] | e |]; simpl in Hs.
  - destruct Hs as (w' & -> & S'). cbn [bind]. now apply IH.
  - destruct Hs as (w' & -> & S'). cbn [bind]. eauto.
  - now rewrite Hs.
  - now rewrite Hs.
Qed.

(** The walk over a lawful stream is the walk over the bytes it presents. *)
Lemma sim_processpayload fuel args s L :
  models s L ->
  sim models (processpayload fuel s args) (processpayload fuel L args).
Proof.
  intros M. unfold processpayload.
  assert (S : same_walk models
                {| w_fh := s; w_count := initial_count; w_out := [] |}
                {| w_fh := L; w_count := initial_count; w_out := [] |})
    by now repeat split.
  pose proof (sim_walk_loop args fuel S) as Hl.
  destruct (walk_loop fuel args {| w_fh := L |}) as [w0 | e |].
  - destruct Hl as (w & -> & Hc & Ho & M'). cbn [bind]. rewrite Hc, Ho.
    destruct (dict_get (w_count w0) 1); cbn [bind]; try reflexivity.
    destruct (dict_get (w_count w0) 2); cbn [bind]; try reflexivity.
    destruct (dict_get (w_count w0) 3); cbn [bind]; try reflexivity.
    simpl. eauto.
  - now rewrite Hl.
  - now rewrite Hl.
Qed.

Lemma sim_outcome {A} (r : result (A * F)) (r0 : result (A * bytes)) :
  sim models r r0 -> outcome r = outcome r0.
Proof.
  unfold sim, outcome. destruct r0 as [[a L] | e |].
  - now intros (s & -> & _).
  - now intros ->.
  - now intros ->.
Qed.

End Sim.

(** *** The walker on the plain byte stream *)

Lemma flat_savedata_loop fuel : forall (L : bytes) size written,
  0 <= size <= len L -> size <= Z.of_nat fuel * 0x100000 ->
  savedata_loop fuel L size written
  = Ok (written ++ firstn (Z.to_nat size) L, skipn (Z.to_nat size) L).
Proof.
  induction fuel as [| fuel IH]; intros L size written Hs Hf;
    destruct (Z.le_gt_cases size 0) as [H0 | H0];
    try (rewrite savedata_loop_done by assumption;
         replace size with 0 by lia; simpl; now rewrite app_nil_r);
    try lia.
  rewrite savedata_loop_step by assumption.
  set (wanted := Z.min 0x100000 size).
  assert (Hw : 0 < wanted <= size) by (subst wanted; lia).
  rewrite flat_read by lia. cbn [bind fst snd].
  rewrite len_firstn by lia.
  destruct (Z.eqb_spec (Z.min wanted (len L)) 0); [lia |].
  rewrite IH.
  - rewrite <- app_assoc, firstn_skipn_add, skipn_skipn_add.
    now replace (Z.to_nat wanted + Z.to_nat (size - wanted))%nat
      with (Z.to_nat size) by lia.
  - rewrite len_skipn by lia. lia.
  - subst wanted. lia.
Qed.

Lemma savedata_fuel_enough size :
  0 <= size -> size <= Z.of_nat (savedata_fuel size) * 0x100000.
Proof.
  intros Hs. unfold savedata_fuel.
  pose proof (Z.div_mod size 0x100000 ltac:(lia)).
  pose proof (Z.mod_pos_bound size 0x100000 ltac:(lia)).
  pose proof (Z.div_pos size 0x100000 Hs ltac:(lia)).
  lia.
Qed.

(** Storing a file whose bytes are all there: exactly [size] bytes leave the
    stream, and they are what is written. *)
Lemma flat_savedata path (L : bytes) size :
  0 <= size <= len L ->
  savedata path L size
  = Ok (EvSave path (firstn (Z.to_nat size) L), skipn (Z.to_nat size) L).
Proof.
  intros Hs. unfold savedata.
  rewrite flat_savedata_loop by (try apply savedata_fuel_enough; lia).
  reflexivity.
Qed.

Lemma flat_dispatch args hdr (L : bytes) :
  0 <= filesize hdr <= len L ->
  dispatch args hdr L = dispatch_spec args hdr L.
Proof.
  intros Hs. unfold dispatch, dispatch_spec.
  destruct (type hdr =? 3).
  - rewrite flat_read by lia. reflexivity.
  - destruct (type hdr =? 1), (output_dir args) as [dir |];
      try (rewrite flat_seek by lia; reflexivity).
    rewrite flat_savedata by assumption. reflexivity.
Qed.

(** The copy loop of [savedata] has rounds enough, whatever is there. *)
Lemma flat_savedata_loop_fuel fuel : forall (L : bytes) size written,
  size <= Z.of_nat fuel * 0x100000 ->
  savedata_loop fuel L size written <> OutOfFuel.
Proof.
  induction fuel as [| fuel IH]; intros L size written Hf;
    destruct (Z.le_gt_cases size 0) as [H0 | H0];
    try (rewrite savedata_loop_done by assumption; discriminate);
    try lia.
  rewrite savedata_loop_step by assumption.
  rewrite flat_read by lia. cbn [bind fst snd].
  destruct (len _ =? 0); [discriminate |]. apply IH. lia.
Qed.

Lemma dispatch_flat_fuel args hdr (L : bytes) : dispatch args hdr L <> OutOfFuel.
Proof.
  unfold dispatch. destruct (type hdr =? 3).
  - unfold fh_read, flat_file_like. cbn [bind].
    destruct (file_read L (filesize hdr)) as [raw L1].
    unfold decode_utf8. destruct (utf8_decode raw); cbn [bind]; [| discriminate].
    destruct (output_dir args); discriminate.
  - assert (Hseek : (fh <- fh_seek L (filesize hdr) 1 ;; Ok (@nil Z, @nil event, fh))
                    <> OutOfFuel).
    { unfold fh_seek, flat_file_like. destruct (_ || _); discriminate. }
    destruct (type hdr =? 1), (output_dir args) as [dir |]; try exact Hseek.
    unfold savedata.
    destruct (Z.le_gt_cases (filesize hdr) 0) as [H0 | H0].
    + rewrite savedata_loop_done by assumption. discriminate.
    + pose proof (@flat_savedata_loop_fuel (savedata_fuel (filesize hdr)) L
                    (filesize hdr) [] (savedata_fuel_enough (Z.lt_le_incl _ _ H0))) as Hl.
      destruct (savedata_loop _ L (filesize hdr) []) as [[w L1] | e |];
        [discriminate | discriminate | contradiction].
Qed.

(** *** The reserved marker *)

Lemma dict_get_fuel d k : dict_get d k <> OutOfFuel.
Proof.
  induction d as [| [k' v] d IH]; simpl; [discriminate |].
  destruct (k' =? k); [discriminate | exact IH].
Qed.

Lemma dict_incr_fuel d k : dict_incr d k <> OutOfFuel.
Proof.
  unfold dict_incr. pose proof (dict_get_fuel d k).
  destruct (dict_get d k); [discriminate | discriminate | contradiction].
Qed.

Lemma unpack_header_marker b1 b2 (X : bytes) o :
  unpack_header (b1 :: X) = Ok o ->
  unk1 o = byte_val b1
  /\ unpack_header (b2 :: X) = Ok (set_unk1 o (byte_val b2)).
Proof.
  unfold unpack_header. simpl length.
  destruct (Nat.eqb_spec (S (length X)) 30); [| discriminate].
  intros E. injection E as <-. split; reflexivity.
Qed.

Lemma unpack_header_marker_raise b1 b2 (X : bytes) e :
  unpack_header (b1 :: X) = Raise e -> unpack_header (b2 :: X) = Raise e.
Proof.
  unfold unpack_header. simpl length.
  destruct (Nat.eqb_spec (S (length X)) 30); [discriminate | auto].
Qed.

Lemma flat_readheader_cons b (L : bytes) :
  readheader (F := bytes) (b :: L) =
  o <- unpack_header (b :: firstn 29 L) ;;
  '(nm, fh) <- fh_read (skipn 29 L) (namelen o) ;;
  nm <- decode_utf8 nm ;;
  Ok (Some (set_name o nm), fh).
Proof. unfold readheader. rewrite flat_read by lia. reflexivity. Qed.

(** On the plain stream, the header read with another marker byte is the
    same header but for [unk1], and the stream behind it is the same. *)
Lemma flat_readheader_marker b1 b2 (L : bytes) :
  match readheader (F := bytes) (b1 :: L) with
  | Ok (Some h, L') =>
    unk1 h = byte_val b1
    /\ readheader (F := bytes) (b2 :: L) = Ok (Some (set_unk1 h (byte_val b2)), L')
  | Ok (None, _) => False
  | Raise e => readheader (F := bytes) (b2 :: L) = Raise e
  | OutOfFuel => False
  end.
Proof.
  rewrite !flat_readheader_cons.
  destruct (unpack_header (b1 :: firstn 29 L)) as [o | e |] eqn:U.
  - destruct (@unpack_header_marker b1 b2 _ _ U) as [Hu ->]. cbn [bind].
    pose proof (@unpack_header_ok _ _ U) as (_ & _ & Hn & _).
    change (namelen (set_unk1 o (byte_val b2))) with (namelen o).
    rewrite flat_read by assumption. cbn [bind].
    destruct (decode_utf8 (firstn (Z.to_nat (namelen o)) (skipn 29 L)))
      as [t | e |] eqn:D; cbn [bind]; try reflexivity.
    + split; [exact Hu | reflexivity].
    + unfold decode_utf8 in D. destruct (utf8_decode _); discriminate.
  - rewrite (@unpack_header_marker_raise b1 b2 _ _ U). reflexivity.
  - unfold unpack_header in U. destruct (_ =? _)%nat; discriminate.
Qed.

Lemma strip_notes_app a b : strip_notes (a ++ b) = strip_notes a ++ strip_notes b.
Proof. apply filter_app. Qed.

Lemma strip_notes_list_entry args h v suffix :
  strip_notes (list_entry args (set_unk1 h v) suffix)
  = strip_notes (list_entry args h suffix).
Proof.
  unfold list_entry. destruct (listing args); [| reflexivity].
  simpl. destruct (v =? 16), (unk1 h =? 16); reflexivity.
Qed.

(** One round of the walk on the plain stream with two marker bytes. *)
Lemma flat_walk_step_marker args b1 b2 (L : bytes) count out :
  match walk_step args (@mkWalk bytes (b1 :: L) count out),
        walk_step args (@mkWalk bytes (b2 :: L) count out) with
  | Ok (c1, w1), Ok (c2, w2) =>
    c1 = true /\ c2 = true /\ w_fh w1 = w_fh w2 /\ w_count w1 = w_count w2
    /\ strip_notes (w_out w1) = strip_notes (w_out w2)
    /\ (listing args = true -> byte_val b1 <> 0x10 ->
        exists pre, w_out w1 = pre ++ [EvPrintNote (byte_val b1)])
  | Raise e1, Raise e2 => e1 = e2
  | _, _ => False
  end.
Proof.
  unfold walk_step. cbn [w_fh w_count w_out].
  pose proof (flat_readheader_marker b1 b2 L) as Hr.
  destruct (readheader (F := bytes) (b1 :: L)) as [[[h |] L1] | e |]; try contradiction.
  - destruct Hr as [Hu ->]. cbn [bind].
    change (dispatch args (set_unk1 h (byte_val b2)) L1) with (dispatch args h L1).
    change (type (set_unk1 h (byte_val b2))) with (type h).
    destruct (dispatch args h L1) as [[[suffix evs] L2] | e |] eqn:D; cbn [bind].
    + destruct (dict_incr count (type h)) as [c | e |] eqn:DI; cbn [bind].
      * cbn [w_fh w_count w_out].
        refine (conj eq_refl (conj eq_refl (conj eq_refl (conj eq_refl (conj _ _))))).
        -- rewrite !strip_notes_app. now rewrite strip_notes_list_entry.
        -- intros Hl Hb. unfold list_entry. rewrite Hl, Hu.
           destruct (Z.eqb_spec (byte_val b1) 16); [contradiction |]. simpl.
           eexists (out ++ evs ++ [_]). now rewrite <- !app_assoc.
      * reflexivity.
      * now apply dict_incr_fuel in DI.
    + reflexivity.
    + exfalso. revert D. apply dispatch_flat_fuel.
  - rewrite Hr. reflexivity.
Qed.

End walker_facts.

(** * The claims *)

Import pbzx_decompressor.

(** Proves [models] of a concrete cursor by running [next] along the raw
    input. *)
Ltac run_stream :=
  split;
  [ unfold wf; simpl; try exact I; lia
  | eexists; split;
    [ repeat (eapply stream_chunk; [vm_compute; reflexivity |]); apply stream_end
    | vm_compute; reflexivity ] ].








(** C10.  On every raw input, from every state whatever and for every
    count, [read] and [seek] return or raise within the rounds granted,
    which the length of the raw input bounds.  An empty chunk costs one
    round: its buffer is dropped at once, none of the count asked for is
    used up, and the loop goes on to the chunk behind it. *)
Theorem read_seek_terminate (decompress : bytes -> option bytes) :
  (forall self n, read decompress self n <> OutOfFuel) /\
  (forall self n whence, seek decompress self n whence <> OutOfFuel) /\
  (forall fuel raw raw' pos n data,
     0 < n -> next decompress raw = Ok (Some [], raw') ->
     read_loop decompress (S fuel) (mk raw None pos) n data
     = read_loop decompress fuel (mk raw' None None) n data
     /\ seek_loop decompress (S fuel) (mk raw None pos) n
        = seek_loop decompress fuel (mk raw' None None) n).
Proof.
  split; [apply pbzx_facts.read_terminates |].
  split; [apply pbzx_facts.seek_terminates |].
  intros fuel raw raw' pos n data Hn N.
  pose proof (@pbzx_facts.read_loop_empty_chunk decompress fuel raw raw' pos n data
                Hn N) as Hr.
  split; [exact Hr |].
  rewrite !(pbzx_facts.seek_loop_read_loop decompress _ _ _ data).
  now rewrite Hr.
Qed.

Lemma read_seek_terminate_witness :
  0 < 4 /\
  next Build.stored (Build.chunk [] ++ Build.chunk (b_ "3456"))
  = Ok (Some [], Build.chunk (b_ "3456")) /\
  read_loop Build.stored 3
    (mk (Build.chunk [] ++ Build.chunk (b_ "3456")) None (Some 0)) 4 []
  = read_loop Build.stored 2 (mk (Build.chunk (b_ "3456")) None None) 4 [].
Proof.
  assert (H1 : 0 < 4) by lia.
  assert (H2 : next Build.stored (Build.chunk [] ++ Build.chunk (b_ "3456"))
               = Ok (Some [], Build.chunk (b_ "3456"))) by (vm_compute; reflexivity).
  split; [exact H1 | split; [exact H2 |]].
  exact (proj1 (proj2 (proj2 (read_seek_terminate Build.stored))
                  2%nat _ _ (Some 0) 4 [] H1 H2)).
Defined.

(** C6.  Two decompressors that present the same bytes, cut into chunks in
    any two ways, answer every sequence of [read] and [seek] calls alike,
    and the walk over them prints, stores and links the same. *)
Theorem chunk_boundaries_invisible
        (decompress : bytes -> option bytes) (s1 s2 : t) (L : bytes) :
  models decompress s1 L -> models decompress s2 L ->
  (forall ops,
     outcome (run_ops (H := file_like decompress) ops s1)
     = outcome (run_ops (H := file_like decompress) ops s2)) /\
  (forall fuel args,
     outcome (processpayload (H := file_like decompress) fuel s1 args)
     = outcome (processpayload (H := file_like decompress) fuel s2 args)).
Proof.
  intros M1 M2. split.
  - intros ops. eapply pbzx_facts.run_ops_models; eassumption.
  - intros fuel args.
    pose proof (pbzx_facts.pbzx_lawful decompress) as Hlaw.
    transitivity (outcome (processpayload fuel L args)).
    + exact (walker_facts.sim_outcome (models decompress) _ _
               (@walker_facts.sim_processpayload _ _ _ Hlaw fuel args s1 L M1)).
    + symmetry.
      exact (walker_facts.sim_outcome (models decompress) _ _
               (@walker_facts.sim_processpayload _ _ _ Hlaw fuel args s2 L M2)).
Qed.

Lemma chunk_boundaries_invisible_witness :
  models Build.stored (mk Build.one_chunk None (Some 0)) (b_ "0123456789") /\
  models Build.stored (mk Build.many_chunks None (Some 0)) (b_ "0123456789") /\
  outcome (run_ops (H := Build.codec_file_like)
             [OpRead 2; OpSeek 3 1; OpRead 4; OpRead 5]
             (mk Build.one_chunk None (Some 0)))
  = outcome (run_ops (H := Build.codec_file_like)
               [OpRead 2; OpSeek 3 1; OpRead 4; OpRead 5]
               (mk Build.many_chunks None (Some 0))).
Proof.
  assert (M1 : models Build.stored (mk Build.one_chunk None (Some 0)) (b_ "0123456789"))
    by run_stream.
  assert (M2 : models Build.stored (mk Build.many_chunks None (Some 0)) (b_ "0123456789"))
    by run_stream.
  split; [exact M1 | split; [exact M2 |]].
  exact (proj1 (chunk_boundaries_invisible M1 M2) _).
Defined.









(** C2, as amended.  Whatever the stream: a header read that returns
    nothing ends the walk; one that returns some bytes but not 30 raises
    the error of [struct.unpack]; after 30 bytes, the name is decoded from
    the bytes that the name read returned, however many they are, and the
    one failure then is a name that is not UTF-8. *)
Theorem readheader_failures
        (F : Type) (H : FileLike F) (s s1 : F) (hdr : bytes) :
  fh_read s 30 = Ok (hdr, s1) ->
  (len hdr = 0 -> readheader s = Ok (None, s1)) /\
  (len hdr <> 0 -> len hdr <> 30 -> readheader s = Raise StructError) /\
  (forall o nm s2,
     unpack_header hdr = Ok o -> fh_read s1 (namelen o) = Ok (nm, s2) ->
     readheader s =
     match utf8_decode nm with
     | Some t => Ok (Some (set_name o t), s2)
     | None => Raise UnicodeDecodeError
     end).
Proof.
  intros E. unfold readheader. rewrite E. cbn [bind].
  split; [| split].
  - intros ->. reflexivity.
  - intros H0 H30. destruct (Z.eqb_spec (len hdr) 0); [contradiction |].
    rewrite walker_facts.unpack_header_short; [reflexivity |].
    unfold len in H30. lia.
  - intros o nm s2 U E2.
    destruct (@walker_facts.unpack_header_ok _ _ U) as (Hl & _).
    unfold len. rewrite Hl. change (Z.of_nat 30 =? 0) with false. cbv iota.
    rewrite U. cbn [bind]. rewrite E2. cbn [bind].
    unfold decode_utf8. destruct (utf8_decode nm); reflexivity.
Qed.

Lemma readheader_failures_witness :
  exists hdr o nm s1 s2,
    @fh_read _ Build.codec_file_like (Build.opened Build.short_name_archive) 30
    = Ok (hdr, s1) /\
    unpack_header hdr = Ok o /\
    @fh_read _ Build.codec_file_like s1 (namelen o) = Ok (nm, s2) /\
    namelen o = 5 /\ nm = b_ "ab" /\
    readheader (H := Build.codec_file_like) (Build.opened Build.short_name_archive)
    = Ok (Some (set_name o (s_ "ab")), s2).
Proof.
  destruct (@fh_read _ Build.codec_file_like
              (Build.opened Build.short_name_archive) 30)
    as [[hdr s1] | e |] eqn:E1;
    [| exfalso; vm_compute in E1; discriminate ..].
  pose proof E1 as E1'. vm_compute in E1'. injection E1' as Eh Es.
  destruct (unpack_header hdr) as [o | e |] eqn:U;
    [| exfalso; subst hdr; vm_compute in U; discriminate ..].
  pose proof U as U'. rewrite <- Eh in U'. vm_compute in U'. injection U' as Eo.
  destruct (@fh_read _ Build.codec_file_like s1 (namelen o))
    as [[nm s2] | e |] eqn:E2;
    [| exfalso; subst s1 o; vm_compute in E2; discriminate ..].
  pose proof E2 as E2'. rewrite <- Es, <- Eo in E2'. vm_compute in E2'.
  injection E2' as En Es2.
  exists hdr, o, nm, s1, s2.
  refine (conj eq_refl (conj U (conj E2 (conj _ (conj _ _))))).
  - now rewrite <- Eo.
  - now rewrite <- En.
  - rewrite (proj2 (proj2 (@readheader_failures _ Build.codec_file_like _ _ _ E1))
               o nm s2 U E2).
    rewrite <- En. reflexivity.
Defined.

(** C2, the claim as stated fails: the header declares a name of five
    bytes, two are left on the stream, and [readheader] returns the entry
    with the name "ab". *)
Lemma short_name_is_accepted :
  outcome (readheader (H := Build.codec_file_like)
             (Build.opened Build.short_name_archive))
  = Ok (Some {| unk1 := 0x10; type := 1; filesize := 0; timestamp := 0;
                attr := 0; namelen := 5; uid := 0; gid := 0;
                filemode := 0x1a4; name := s_ "ab" |}).
Proof. vm_compute. reflexivity. Qed.

(** C1, on the code.  The walk over an archive in which an entry of kind 4
    stands in front of a file raises [KeyError] when it tallies the entry of
    kind 4, whatever the arguments; the file behind it is never reached.
    The same file alone is extracted and counted. *)
Theorem unknown_kind_aborts_walk :
  outcome (processpayload (H := Build.codec_file_like) 5
             (Build.opened Build.unknown_kind_archive) Build.to_out)
  = Raise (KeyError 4) /\
  outcome (processpayload (H := Build.codec_file_like) 5
             (Build.opened Build.unknown_kind_archive) Build.quiet)
  = Raise (KeyError 4) /\
  outcome (processpayload (H := Build.codec_file_like) 5
             (Build.opened Build.file_archive) Build.quiet)
  = Ok [EvPrintFound 1 0 0].
Proof. repeat split; vm_compute; reflexivity. Qed.

(** * Further properties *)

(** ** The decompressor *)

(** X1.  [__init__] accepts exactly the inputs that start with the magic
    and hold the eight bytes behind it, whatever those bytes are; it leaves
    the raw input behind them and decompresses nothing.  A shorter input is
    an error of [struct.unpack], another magic is the exception of the
    constructor. *)
Theorem init_outcome (raw : bytes) :
  ((length raw < 12)%nat -> init raw = Raise StructError) /\
  ((12 <= length raw)%nat -> firstn 4 raw <> b_ "pbzx" ->
   init raw = Raise (PyException "not a pbzx payload")) /\
  ((12 <= length raw)%nat -> firstn 4 raw = b_ "pbzx" ->
   init raw = Ok (mk (skipn 12 raw) None (Some 0))).
Proof.
  unfold init. rewrite file_read_nonneg by lia. change (Z.to_nat 12) with 12%nat.
  unfold unpack_4sQ. rewrite length_firstn.
  assert (Hf : field (firstn 12 raw) 0 4 = firstn 4 raw).
  { unfold field. change (skipn 0 (firstn 12 raw)) with (firstn 12 raw).
    rewrite firstn_firstn. reflexivity. }
  split; [| split].
  - intros Hl. destruct (Nat.eqb_spec (Nat.min 12 (length raw)) 12); [lia | reflexivity].
  - intros Hl Hm. destruct (Nat.eqb_spec (Nat.min 12 (length raw)) 12); [| lia].
    cbn [bind]. rewrite Hf. unfold bytes_eqb.
    destruct (list_eq_dec Byte.byte_eq_dec (firstn 4 raw) (b_ "pbzx"));
      [contradiction | reflexivity].
  - intros Hl Hm. destruct (Nat.eqb_spec (Nat.min 12 (length raw)) 12); [| lia].
    cbn [bind]. rewrite Hf. unfold bytes_eqb.
    destruct (list_eq_dec Byte.byte_eq_dec (firstn 4 raw) (b_ "pbzx"));
      [reflexivity | contradiction].
Qed.

Lemma init_outcome_witness :
  (length (b_ "pbz") < 12)%nat /\ init (b_ "pbz") = Raise StructError /\
  init (b_ "xzxz00000000rest") = Raise (PyException "not a pbzx payload") /\
  init (b_ "pbzx00000000rest") = Ok (mk (b_ "rest") None (Some 0)).
Proof.
  assert (H1 : (length (b_ "pbz") < 12)%nat) by (vm_compute; lia).
  split; [exact H1 |].
  split; [exact (proj1 (init_outcome (b_ "pbz")) H1) |].
  split.
  - apply (proj1 (proj2 (init_outcome (b_ "xzxz00000000rest")))).
    + vm_compute; lia.
    + vm_compute. discriminate.
  - apply (proj2 (proj2 (init_outcome (b_ "pbzx00000000rest")))).
    + vm_compute; lia.
    + reflexivity.
Defined.

(** X2.  At the end of the raw input with no buffer left, [read] returns
    the empty bytes, and goes on doing so. *)
Theorem read_at_end (decompress : bytes -> option bytes) (self : t) (n : Z) :
  at_end self ->
  exists self', read decompress self n = Ok ([], self') /\ at_end self'.
Proof.
  intros [Hf Hb]. destruct self as [raw buf pos]. simpl in Hf, Hb. subst raw buf.
  unfold read. destruct (Z.le_gt_cases n 0) as [Hn | Hn].
  - rewrite pbzx_facts.read_loop_done by assumption.
    eexists. split; [reflexivity | split; reflexivity].
  - unfold rounds. simpl length.
    rewrite pbzx_facts.read_loop_fetch by assumption.
    rewrite pbzx_facts.next_nil.
    eexists. split; [reflexivity | split; reflexivity].
Qed.

Lemma read_at_end_witness :
  at_end (mk [] None None) /\
  exists self', read Build.stored (mk [] None None) 30 = Ok ([], self') /\ at_end self'.
Proof.
  assert (H1 : at_end (mk [] None None)) by (split; reflexivity).
  split; [exact H1 |]. exact (read_at_end Build.stored 30 H1).
Defined.

(** X3.  A raw input that ends inside the sixteen bytes of a chunk header is
    not taken for the end of the stream: a [read] that needs the next chunk
    raises the error of [struct.unpack]. *)
Theorem read_in_broken_chunk_header
        (decompress : bytes -> option bytes) (raw : bytes) (pos : option Z) (n : Z) :
  (0 < length raw < 16)%nat -> 0 < n ->
  read decompress (mk raw None pos) n = Raise StructError
  /\ seek decompress (mk raw None pos) n 1 = Raise StructError.
Proof.
  intros Hl Hn.
  assert (Hr : read decompress (mk raw None pos) n = Raise StructError).
  { unfold read, rounds. simpl fh.
    rewrite pbzx_facts.read_loop_fetch by assumption.
    now rewrite pbzx_facts.next_short. }
  split; [exact Hr |].
  rewrite pbzx_facts.seek_read by lia. now rewrite Hr.
Qed.

Lemma read_in_broken_chunk_header_witness :
  (0 < length (b_ "0123456") < 16)%nat /\ 0 < 1 /\
  read Build.stored (mk (b_ "0123456") None (Some 0)) 1 = Raise StructError.
Proof.
  assert (H1 : (0 < length (b_ "0123456") < 16)%nat) by (vm_compute; lia).
  assert (H2 : 0 < 1) by lia.
  split; [exact H1 | split; [exact H2 |]].
  exact (proj1 (read_in_broken_chunk_header Build.stored (b_ "0123456") (Some 0) H1 H2)).
Defined.

(** X4.  From every state and for every count that is not negative, a
    forward [seek] does what [read] does and throws the bytes away: the
    same state behind it, the same exception. *)
Theorem seek_is_read_discarded
        (decompress : bytes -> option bytes) (self : t) (size : Z) :
  0 <= size ->
  seek decompress self size 1 =
  match read decompress self size with
  | Ok (_, self') => Ok self'
  | Raise e => Raise e
  | OutOfFuel => OutOfFuel
  end.
Proof.
  intros Hs. unfold seek, read. change (1 =? 1) with true. simpl negb.
  destruct (Z.ltb_spec size 0); [lia |]. simpl orb. cbv iota.
  apply pbzx_facts.seek_loop_read_loop.
Qed.

Lemma seek_is_read_discarded_witness :
  0 <= 6 /\
  seek Build.stored Build.mid_buffer 6 1 =
  match read Build.stored Build.mid_buffer 6 with
  | Ok (_, self') => Ok self'
  | Raise e => Raise e
  | OutOfFuel => OutOfFuel
  end.
Proof.
  assert (H1 : 0 <= 6) by lia.
  split; [exact H1 | exact (seek_is_read_discarded Build.stored Build.mid_buffer H1)].
Defined.

(** X5.  On a stream of good chunks, two reads in a row return, put end to
    end, what one read of the two counts together returns, and leave the
    same bytes to come. *)
Theorem reads_compose
        (decompress : bytes -> option bytes) (self : t) (L : bytes) (a b : Z) :
  models decompress self L -> 0 <= a -> 0 <= b ->
  exists d1 d2 s1 s2 s12 L',
    read decompress self a = Ok (d1, s1) /\
    read decompress s1 b = Ok (d2, s2) /\
    read decompress self (a + b) = Ok (d1 ++ d2, s12) /\
    models decompress s2 L' /\ models decompress s12 L'.
Proof.
  intros M Ha Hb.
  destruct (pbzx_facts.read_models M Ha) as (s1 & E1 & M1).
  destruct (pbzx_facts.read_models M1 Hb) as (s2 & E2 & M2).
  destruct (pbzx_facts.read_models (size := a + b) M ltac:(lia)) as (s12 & E12 & M12).
  exists (firstn (Z.to_nat a) L), (firstn (Z.to_nat b) (skipn (Z.to_nat a) L)),
    s1, s2, s12, (skipn (Z.to_nat (a + b)) L).
  rewrite firstn_skipn_add, skipn_skipn_add in *.
  replace (Z.to_nat a + Z.to_nat b)%nat with (Z.to_nat (a + b)) in * by lia.
  auto.
Qed.

Lemma reads_compose_witness :
  models Build.stored (mk Build.many_chunks None (Some 0)) (b_ "0123456789") /\
  exists s1 s2 s12,
    read Build.stored (mk Build.many_chunks None (Some 0)) 2 = Ok (b_ "01", s1) /\
    read Build.stored s1 6 = Ok (b_ "234567", s2) /\
    read Build.stored (mk Build.many_chunks None (Some 0)) (2 + 6)
    = Ok (b_ "01" ++ b_ "234567", s12).
Proof.
  assert (M : models Build.stored (mk Build.many_chunks None (Some 0))
                (b_ "0123456789")) by run_stream.
  split; [exact M |].
  destruct (@reads_compose Build.stored _ _ 2 6 M ltac:(lia) ltac:(lia))
    as (d1 & d2 & s1 & s2 & s12 & L' & E1 & E2 & E12 & _).
  assert (Hd1 : d1 = b_ "01").
  { pose proof E1 as E. vm_compute in E. injection E; intros; subst; reflexivity. }
  subst d1.
  assert (Hd2 : d2 = b_ "234567").
  { pose proof E12 as E. vm_compute in E. injection E; intros; subst; reflexivity. }
  subst d2. exists s1, s2, s12. auto.
Defined.

Lemma strict_moved raw buf pos want :
  0 <= pos -> 0 <= want -> pos + want <= len buf ->
  strict_wf (pbzx_decompressor.moved raw buf pos want).
Proof.
  intros Hp Hw Hl. unfold moved, strict_wf.
  destruct (Z.eqb_spec (pos + want) (len buf)); simpl; [exact I | lia].
Qed.

Lemma read_loop_strict (decompress : bytes -> option bytes) fuel :
  forall self size data data' self',
  strict_wf self ->
  read_loop decompress fuel self size data = Ok (data', self') ->
  strict_wf self'.
Proof.
  induction fuel as [| fuel IH]; intros self size data data' self' Hwf E.
  { simpl in E. destruct (size >? 0); [discriminate |]. now injection E as _ <-. }
  destruct (Z.le_gt_cases size 0) as [Hs | Hs].
  { rewrite pbzx_facts.read_loop_done in E by assumption. now injection E as _ <-. }
  assert (Hbuf : forall raw buf pos, 0 <= pos <= len buf ->
    read_loop decompress (S fuel) (mk raw (Some buf) (Some pos)) size data
    = Ok (data', self') -> strict_wf self').
  { intros raw buf pos Hpos E1. rewrite pbzx_facts.read_loop_buffer in E1 by lia.
    apply IH in E1; [exact E1 |]. apply strict_moved; lia. }
  destruct self as [raw [buf |] pos]; unfold strict_wf in Hwf; simpl in Hwf.
  - destruct pos as [pos |]; [| contradiction]. apply (Hbuf raw buf pos); [lia | exact E].
  - rewrite pbzx_facts.read_loop_fetch in E by lia.
    destruct (next decompress raw) as [[[buf |] raw'] | e |]; try discriminate.
    + apply (Hbuf raw' buf 0); [pose proof (len_nonneg buf); lia | exact E].
    + injection E as _ <-. exact I.
Qed.

(** X6.  A buffer is never kept once its last byte is handed out: the
    constructor leaves no buffer, and whenever [read] or [seek] returns
    from a state that holds no used-up buffer, the state it leaves holds
    none either. *)
Theorem no_exhausted_buffer_kept (decompress : bytes -> option bytes) (self : t) :
  (forall raw d, init raw = Ok d -> strict_wf d) /\
  (strict_wf self ->
   (forall n data self', read decompress self n = Ok (data, self') -> strict_wf self')
   /\ (forall n whence self',
         seek decompress self n whence = Ok self' -> strict_wf self')).
Proof.
  split.
  { intros raw d E. unfold init in E.
    destruct (file_read raw 12) as [filehdr raw'].
    destruct (unpack_4sQ filehdr) as [[magic maxchunk] | e |]; try discriminate.
    cbn [bind] in E. destruct (negb _); [discriminate |].
    injection E as <-. exact I. }
  intros Hwf. split.
  - intros n data self' E. unfold read in E.
    eapply read_loop_strict; eassumption.
  - intros n whence self' E. unfold seek in E.
    destruct (negb (whence =? 1) || (n <? 0)); [discriminate |].
    rewrite (pbzx_facts.seek_loop_read_loop decompress _ _ _ []) in E.
    destruct (read_loop decompress (rounds self) self n []) as [[d s'] | e |] eqn:R;
      try discriminate.
    injection E as <-. eapply read_loop_strict; eassumption.
Qed.

Lemma no_exhausted_buffer_kept_witness :
  strict_wf Build.mid_buffer /\
  (forall data self',
     read Build.stored Build.mid_buffer 3 = Ok (data, self') -> strict_wf self').
Proof.
  assert (H1 : strict_wf Build.mid_buffer)
    by (unfold strict_wf; simpl; unfold len; simpl; lia).
  split; [exact H1 |].
  exact (proj1 (proj2 (@no_exhausted_buffer_kept Build.stored Build.mid_buffer) H1) 3).
Defined.

(** ** The walker *)

Lemma flat_savedata_loop_any fuel : forall (L : bytes) size written,
  0 <= size -> size <= Z.of_nat fuel * 0x100000 ->
  savedata_loop fuel L size written
  = Ok (written ++ firstn (Z.to_nat size) L, skipn (Z.to_nat size) L).
Proof.
  induction fuel as [| fuel IH]; intros L size written Hs Hf;
    destruct (Z.le_gt_cases size 0) as [H0 | H0];
    try (rewrite walker_facts.savedata_loop_done by assumption;
         replace size with 0 by lia; simpl; now rewrite app_nil_r);
    try lia.
  rewrite walker_facts.savedata_loop_step by assumption.
  set (wanted := Z.min 0x100000 size).
  assert (Hw : 0 < wanted <= size) by (subst wanted; lia).
  rewrite walker_facts.flat_read by lia. cbn [bind fst snd].
  destruct (Z.eqb_spec (len (firstn (Z.to_nat wanted) L)) 0) as [E | E].
  - rewrite len_firstn in E by lia.
    assert (HL : L = []) by (apply len_zero_nil; lia). subst L.
    now rewrite firstn_nil, !skipn_nil, app_nil_r.
  - rewrite IH by (subst wanted; lia).
    rewrite <- app_assoc, firstn_skipn_add, skipn_skipn_add.
    now replace (Z.to_nat wanted + Z.to_nat (size - wanted))%nat
      with (Z.to_nat size) by lia.
Qed.



Lemma flat_dispatch_any args hdr (L : bytes) :
  0 <= filesize hdr -> dispatch args hdr L = dispatch_spec args hdr L.
Proof.
  intros Hs. unfold dispatch, dispatch_spec.
  destruct (type hdr =? 3).
  - rewrite walker_facts.flat_read by lia. reflexivity.
  - destruct (type hdr =? 1), (output_dir args) as [dir |];
      try (rewrite walker_facts.flat_seek by lia; reflexivity).
    unfold savedata.
    rewrite flat_savedata_loop_any
      by (try apply walker_facts.savedata_fuel_enough; lia).
    reflexivity.
Qed.



Section AnyStream.

Context {F : Type} `{FileLike F}.

(** What the dispatch does to the file system: nothing, one file stored
    for a file entry, or one link made for a link entry, and the last two
    only under an output directory. *)
Lemma dispatch_events args hdr (s s' : F) suffix evs :
  dispatch args hdr s = Ok (suffix, evs, s') ->
  evs = [] \/
  exists dir, output_dir args = Some dir /\
    ((type hdr = 1 /\ exists data, evs = [EvSave (join_path dir (name hdr)) data])
     \/ (type hdr = 3 /\ exists link, evs = [EvSymlink link (join_path dir (name hdr))])).
Proof.
  unfold dispatch. intros E.
  destruct (Z.eqb_spec (type hdr) 3) as [E3 | E3].
  - apply bind_ok in E. destruct E as ([raw s1] & _ & E).
    apply bind_ok in E. destruct E as (link & _ & E).
    destruct (output_dir args) as [dir |]; injection E as _ <- _; [right | now left].
    exists dir. split; [reflexivity |]. right. split; [exact E3 |]. now exists link.
  - destruct (Z.eqb_spec (type hdr) 1) as [E1 | E1];
      destruct (output_dir args) as [dir |];
      try (apply bind_ok in E; destruct E as (s1 & _ & E);
           injection E as _ <- _; now left).
    apply bind_ok in E. destruct E as ([ev s1] & Es & E).
    injection E as _ <- _. right. exists dir. split; [reflexivity |]. left.
    split; [exact E1 |]. unfold savedata in Es.
    apply bind_ok in Es. destruct Es as ([w s2] & _ & Es).
    injection Es as <- _. now exists w.
Qed.

(** One round of the walk, taken apart. *)
Lemma walk_step_inv args (w w' : walk_state) c :
  walk_step args w = Ok (c, w') ->
  (c = false /\ w_count w' = w_count w /\ w_out w' = w_out w)
  \/ (c = true /\ exists hdr s1 suffix evs,
        readheader (w_fh w) = Ok (Some hdr, s1) /\
        dispatch args hdr s1 = Ok (suffix, evs, w_fh w') /\
        dict_incr (w_count w) (type hdr) = Ok (w_count w') /\
        w_out w' = w_out w ++ evs ++ list_entry args hdr suffix).
Proof.
  unfold walk_step. intros E.
  apply bind_ok in E. destruct E as ([[hdr |] s1] & R & E).
  - apply bind_ok in E. destruct E as ([[suffix evs] s2] & D & E).
    apply bind_ok in E. destruct E as (count & C & E).
    injection E as <- <-. right. split; [reflexivity |].
    exists hdr, s1, suffix, evs. auto.
  - injection E as <- <-. left. auto.
Qed.

(** What every round keeps, the whole loop keeps. *)
Lemma walk_loop_invariant args (P : walk_state -> Prop) :
  (forall w c w', P w -> walk_step args w = Ok (c, w') -> P w') ->
  forall fuel w w', P w -> walk_loop fuel args w = Ok w' -> P w'.
Proof.
  intros Hstep. induction fuel as [| fuel IH]; intros w w' HP E; [discriminate |].
  cbn [walk_loop] in E. apply bind_ok in E. destruct E as ([c w1] & S & E).
  destruct c.
  - eapply IH; [| exact E]. eapply Hstep; eassumption.
  - injection E as <-. eapply Hstep; eassumption.
Qed.

Lemma processpayload_inv fuel (s s' : F) args out :
  processpayload fuel s args = Ok (out, s') ->
  exists w c1 c2 c3,
    walk_loop fuel args {| w_fh := s; w_count := initial_count; w_out := [] |} = Ok w
    /\ dict_get (w_count w) 1 = Ok c1 /\ dict_get (w_count w) 2 = Ok c2
    /\ dict_get (w_count w) 3 = Ok c3
    /\ out = w_out w ++ [EvPrintFound c1 c2 c3].
Proof.
  unfold processpayload. intros E.
  apply bind_ok in E. destruct E as (w & W & E).
  apply bind_ok in E. destruct E as (c1 & C1 & E).
  apply bind_ok in E. destruct E as (c2 & C2 & E).
  apply bind_ok in E. destruct E as (c3 & C3 & E).
  injection E as <- _. exists w, c1, c2, c3. auto.
Qed.

End AnyStream.

(** X9.  Without an output directory the walk touches no file: whatever
    the stream, whatever the entries, everything a completed walk has done
    is printing. *)
Theorem listing_only_creates_nothing
        (F : Type) (H : FileLike F) (fuel : nat) (s s' : F) (args : Args)
        (out : list event) :
  output_dir args = None ->
  processpayload fuel s args = Ok (out, s') ->
  forallb is_print out = true.
Proof.
  intros Hout E. apply processpayload_inv in E.
  destruct E as (w & c1 & c2 & c3 & W & _ & _ & _ & ->).
  rewrite forallb_app. simpl. rewrite andb_true_r.
  revert W. apply (walk_loop_invariant args (fun w => forallb is_print (w_out w) = true));
    [| reflexivity].
  intros w0 c w1 HP S. apply walk_step_inv in S.
  destruct S as [(_ & _ & ->) | (_ & hdr & s1 & suffix & evs & _ & D & _ & ->)];
    [exact HP |].
  rewrite !forallb_app, HP. simpl.
  apply dispatch_events in D. destruct D as [-> | (dir & Hd & _)]; [| congruence].
  simpl. unfold list_entry. destruct (listing args); [| reflexivity].
  simpl. destruct (negb _); reflexivity.
Qed.

Lemma listing_only_creates_nothing_witness :
  output_dir Build.list_only = None /\
  exists out s',
    processpayload (H := Build.codec_file_like) 5
      (Build.opened Build.symlink_archive) Build.list_only = Ok (out, s')
    /\ forallb is_print out = true.
Proof.
  assert (H1 : output_dir Build.list_only = None) by reflexivity.
  split; [exact H1 |].
  destruct (processpayload (H := Build.codec_file_like) 5
              (Build.opened Build.symlink_archive) Build.list_only)
    as [[out s'] | e |] eqn:E; [| exfalso; vm_compute in E; discriminate ..].
  exists out, s'. split; [reflexivity |].
  exact (@listing_only_creates_nothing _ Build.codec_file_like 5 _ _ _ _ H1 E).
Defined.

Lemma listed_app k a b : listed k (a ++ b) = listed k a + listed k b.
Proof. unfold listed. now rewrite filter_app, len_app. Qed.

Lemma listed_list_entry k args hdr suffix :
  listing args = true ->
  listed k (list_entry args hdr suffix) = if type hdr =? k then 1 else 0.
Proof.
  intros Hl. unfold list_entry, listed. rewrite Hl. simpl.
  destruct (type hdr =? k), (negb (unk1 hdr =? 16)); reflexivity.
Qed.

Lemma dict_incr_tally a b c k count' :
  dict_incr [(1, a); (2, b); (3, c)] k = Ok count' ->
  (k = 1 /\ count' = [(1, a + 1); (2, b); (3, c)])
  \/ (k = 2 /\ count' = [(1, a); (2, b + 1); (3, c)])
  \/ (k = 3 /\ count' = [(1, a); (2, b); (3, c + 1)]).
Proof.
  unfold dict_incr. cbn [dict_get dict_set].
  destruct (Z.eqb_spec 1 k) as [<- | H1]; cbn [bind].
  { intros E. injection E as <-. auto. }
  destruct (Z.eqb_spec 2 k) as [<- | H2]; cbn [bind].
  { intros E. injection E as <-. auto. }
  destruct (Z.eqb_spec 3 k) as [<- | H3]; cbn [bind]; [| intros E; discriminate E].
  intros E. injection E as <-. auto.
Qed.

(** X10.  When listing is asked for, the totals printed at the end of a
    completed walk are, kind by kind, the numbers of entries listed: the
    output is the listing followed by one line of totals. *)
Theorem totals_match_listing
        (F : Type) (H : FileLike F) (fuel : nat) (s s' : F) (args : Args)
        (out : list event) :
  listing args = true ->
  processpayload fuel s args = Ok (out, s') ->
  exists body,
    out = body ++ [EvPrintFound (listed 1 body) (listed 2 body) (listed 3 body)].
Proof.
  intros Hl E. apply processpayload_inv in E.
  destruct E as (w & c1 & c2 & c3 & W & C1 & C2 & C3 & ->).
  exists (w_out w). do 2 f_equal.
  assert (P : exists a b c, w_count w = [(1, a); (2, b); (3, c)]
                            /\ a = listed 1 (w_out w) /\ b = listed 2 (w_out w)
                            /\ c = listed 3 (w_out w)).
  { revert W.
    apply (walk_loop_invariant args
             (fun w => exists a b c, w_count w = [(1, a); (2, b); (3, c)]
                        /\ a = listed 1 (w_out w) /\ b = listed 2 (w_out w)
                        /\ c = listed 3 (w_out w)));
      [| exists 0, 0, 0; repeat split].
    intros w0 c w1 (a & b & c' & Hc & Ha & Hb & Hc') S.
    apply walk_step_inv in S.
    destruct S as [(_ & -> & ->) | (_ & hdr & s1 & suffix & evs & _ & D & I & ->)];
      [exists a, b, c'; auto |].
    rewrite Hc in I. apply dict_incr_tally in I.
    assert (Hev : forall k, listed k evs = 0).
    { intros k. apply dispatch_events in D.
      destruct D as [-> | (dir & _ & [(_ & data & ->) | (_ & link & ->)])];
        reflexivity. }
    rewrite !listed_app, !Hev, !listed_list_entry by assumption.
    destruct I as [(-> & ->) | [(-> & ->) | (-> & ->)]]; simpl;
      do 3 eexists; (split; [reflexivity |]); repeat split; lia. }
  destruct P as (a & b & c & Hc & -> & -> & ->).
  rewrite Hc in C1, C2, C3. simpl in C1, C2, C3. congruence.
Qed.

Lemma totals_match_listing_witness :
  listing Build.to_out = true /\
  exists body s',
    processpayload (H := Build.codec_file_like) 5
      (Build.opened Build.symlink_archive) Build.to_out
    = Ok (body ++ [EvPrintFound (listed 1 body) (listed 2 body) (listed 3 body)], s').
Proof.
  assert (H1 : listing Build.to_out = true) by reflexivity.
  split; [exact H1 |].
  destruct (processpayload (H := Build.codec_file_like) 5
              (Build.opened Build.symlink_archive) Build.to_out)
    as [[out s'] | e |] eqn:E; [| exfalso; vm_compute in E; discriminate ..].
  destruct (@totals_match_listing _ Build.codec_file_like 5 _ _ _ _ H1 E)
    as (body & ->).
  now exists body, s'.
Defined.

Lemma flat_readheader_fuel (L : bytes) : readheader L <> OutOfFuel.
Proof.
  unfold readheader. rewrite walker_facts.flat_read by lia. cbn [bind].
  destruct (len _ =? 0); [discriminate |].
  destruct (unpack_header (firstn (Z.to_nat 30) L)) as [o | e |] eqn:U;
    cbn [bind]; [| discriminate |].
  - destruct (@walker_facts.unpack_header_ok _ _ U) as (_ & _ & Hn & _).
    rewrite walker_facts.flat_read by assumption. cbn [bind].
    unfold decode_utf8. destruct (utf8_decode _); discriminate.
  - unfold unpack_header in U. destruct (_ =? _)%nat; discriminate.
Qed.

(** A header read off the plain stream takes at least its thirty bytes. *)
Lemma flat_readheader_advances (L L' : bytes) hdr :
  readheader L = Ok (Some hdr, L') -> (length L' + 30 <= length L)%nat.
Proof.
  unfold readheader. rewrite walker_facts.flat_read by lia. cbn [bind].
  destruct (len _ =? 0); [discriminate |]. intros E.
  apply bind_ok in E. destruct E as (o & U & E).
  destruct (@walker_facts.unpack_header_ok _ _ U) as (Hl & _ & Hn & _).
  rewrite walker_facts.flat_read in E by assumption. cbn [bind] in E.
  apply bind_ok in E. destruct E as (t & _ & E).
  assert (EL : skipn (Z.to_nat (namelen o)) (skipn (Z.to_nat 30) L) = L')
    by congruence.
  rewrite <- EL. rewrite length_firstn in Hl. rewrite !length_skipn. lia.
Qed.

Lemma flat_dispatch_length args hdr (L L' : bytes) suffix evs :
  0 <= filesize hdr ->
  dispatch args hdr L = Ok (suffix, evs, L') -> (length L' <= length L)%nat.
Proof.
  intros Hs E. rewrite flat_dispatch_any in E by assumption.
  unfold dispatch_spec in E.
  assert (Hk : (length (skipn (Z.to_nat (filesize hdr)) L) <= length L)%nat)
    by (rewrite length_skipn; lia).
  destruct (type hdr =? 3).
  - apply bind_ok in E. destruct E as (link & _ & E).
    destruct (output_dir args); injection E as _ _ <-; exact Hk.
  - destruct (type hdr =? 1), (output_dir args); injection E as _ _ <-; exact Hk.
Qed.

Lemma flat_walk_loop_fuel args fuel : forall (w : @walk_state bytes),
  (length (w_fh w) < fuel)%nat -> walk_loop fuel args w <> OutOfFuel.
Proof.
  induction fuel as [| fuel IH]; intros w Hf; [lia |].
  cbn [walk_loop].
  destruct (walk_step args w) as [[c w1] | e |] eqn:S; cbn [bind];
    [| discriminate |].
  - destruct c; [| discriminate]. apply IH.
    apply walk_step_inv in S.
    destruct S as [(Hc & _) | (_ & hdr & L1 & suffix & evs & R & D & _ & _)];
      [discriminate |].
    destruct (walker_facts.readheader_nonneg _ R) as [Hs _].
    apply flat_readheader_advances in R.
    apply flat_dispatch_length in D; [| exact Hs]. lia.
  - exfalso. unfold walk_step in S.
    pose proof (@flat_readheader_fuel (w_fh w)) as Hr.
    destruct (readheader (w_fh w)) as [[[hdr |] L1] | e |]; cbn [bind] in S;
      try discriminate; [| contradiction].
    pose proof (@walker_facts.dispatch_flat_fuel args hdr L1) as Hd.
    destruct (dispatch args hdr L1) as [[[suffix evs] L2] | e |]; cbn [bind] in S;
      try discriminate; [| contradiction].
    pose proof (@walker_facts.dict_incr_fuel (w_count w) (type hdr)) as Hi.
    destruct (dict_incr (w_count w) (type hdr)); cbn [bind] in S;
      try discriminate. contradiction.
Qed.

(** X11.  The walk over a stream of good chunks comes to an end: given one
    round more than there are bytes to come, [processpayload] returns or
    raises.  Every round that goes on has taken a header of thirty bytes
    off the stream. *)
Theorem walk_terminates
        (F : Type) (H : FileLike F) (models : F -> bytes -> Prop)
        (HL : Lawful models) (args : Args) (s : F) (L : bytes) (fuel : nat) :
  models s L -> (length L < fuel)%nat ->
  processpayload fuel s args <> OutOfFuel.
Proof.
  intros M Hf.
  pose proof (@walker_facts.sim_processpayload _ _ _ HL fuel args s L M) as Hs.
  assert (Hflat : processpayload fuel L args <> OutOfFuel).
  { unfold processpayload.
    pose proof (@flat_walk_loop_fuel args fuel
                  {| w_fh := L; w_count := initial_count; w_out := [] |} Hf) as Hw.
    destruct (walk_loop fuel args _) as [w | e |]; cbn [bind];
      [| discriminate | contradiction].
    pose proof (walker_facts.dict_get_fuel (w_count w)) as Hg.
    destruct (dict_get (w_count w) 1) eqn:G1; cbn [bind];
      [| discriminate | now apply Hg in G1].
    destruct (dict_get (w_count w) 2) eqn:G2; cbn [bind];
      [| discriminate | now apply Hg in G2].
    destruct (dict_get (w_count w) 3) eqn:G3; cbn [bind];
      [discriminate | discriminate | now apply Hg in G3]. }
  unfold sim in Hs.
  destruct (processpayload fuel L args) as [[out L'] | e |].
  - destruct Hs as (s' & -> & _). discriminate.
  - rewrite Hs. discriminate.
  - contradiction.
Qed.

Lemma walk_terminates_witness :
  models Build.stored (mk Build.many_chunks None (Some 0)) (b_ "0123456789") /\
  (length (b_ "0123456789") < 11)%nat /\
  processpayload (H := Build.codec_file_like) 11
    (mk Build.many_chunks None (Some 0)) Build.quiet <> OutOfFuel.
Proof.
  assert (M : models Build.stored (mk Build.many_chunks None (Some 0))
                (b_ "0123456789")) by run_stream.
  assert (Hf : (length (b_ "0123456789") < 11)%nat) by (vm_compute; lia).
  split; [exact M | split; [exact Hf |]].
  exact (@walk_terminates _ Build.codec_file_like _
           (pbzx_facts.pbzx_lawful Build.stored) Build.quiet _ _ 11 M Hf).
Defined.

(** ** The layout of the header *)

Lemma byte_val_byte_of v : byte_val (Build.byte_of v) = v mod 256.
Proof.
  unfold byte_val, Build.byte_of.
  pose proof (Z.mod_pos_bound v 256 ltac:(lia)) as Hb.
  destruct (Byte.of_N (Z.to_N (v mod 256))) as [b |] eqn:E.
  - apply Byte.to_of_N in E. rewrite E. lia.
  - apply Byte.of_N_None_iff in E. lia.
Qed.

Lemma be_uint_snoc bs b : be_uint (bs ++ [b]) = be_uint bs * 256 + byte_val b.
Proof. unfold be_uint. rewrite fold_left_app. reflexivity. Qed.

Lemma length_be_bytes n v : length (Build.be_bytes n v) = n.
Proof.
  revert v; induction n as [| n IH]; intros v; simpl; [reflexivity |].
  rewrite length_app, IH. simpl. lia.
Qed.

(** Decoding the big-endian bytes of [v] on [n] bytes gives [v] back, up
    to the width. *)
Lemma be_uint_be_bytes n : forall v,
  be_uint (Build.be_bytes n v) = v mod 256 ^ Z.of_nat n.
Proof.
  induction n as [| n IH]; intros v.
  - simpl. now rewrite Z.mod_1_r.
  - cbn [Build.be_bytes]. rewrite be_uint_snoc, IH, byte_val_byte_of.
    rewrite Nat2Z.inj_succ, Z.pow_succ_r by lia.
    rewrite Z.rem_mul_r by lia. lia.
Qed.

Lemma be_uint_be_bytes_small n v :
  0 <= v < 256 ^ Z.of_nat n -> be_uint (Build.be_bytes n v) = v.
Proof. intros Hv. rewrite be_uint_be_bytes. now apply Z.mod_small. Qed.

Lemma be_sint_be_bytes_16 v :
  - 2 ^ 15 <= v < 2 ^ 15 -> be_sint (Build.be_bytes 2 v) = v.
Proof.
  intros Hv. unfold be_sint, len. rewrite length_be_bytes, be_uint_be_bytes.
  change (256 ^ Z.of_nat 2) with 65536. change (2 ^ (8 * Z.of_nat 2)) with 65536.
  change (65536 / 2) with 32768. change (2 ^ 15) with 32768 in Hv.
  destruct (Z.lt_ge_cases v 0) as [Hn | Hp].
  - replace (v mod 65536) with (v + 65536)
      by (apply Z.mod_unique with (q := -1); lia).
    destruct (Z.ltb_spec (v + 65536) 32768); lia.
  - rewrite Z.mod_small by lia. destruct (Z.ltb_spec v 32768); lia.
Qed.

Lemma field_skip (a r : bytes) k off n :
  length a = k -> (k <= off)%nat -> field (a ++ r) off n = field r (off - k) n.
Proof.
  intros <- Hk. unfold field. rewrite skipn_app.
  rewrite skipn_all2 by lia. reflexivity.
Qed.

Lemma field_here (a r : bytes) n : length a = n -> field (a ++ r) 0 n = a.
Proof.
  intros <-. unfold field. simpl skipn.
  rewrite firstn_app, Nat.sub_diag, firstn_all. simpl. apply app_nil_r.
Qed.

(** Walks to a field of a header laid out as a chain of fields. *)
Ltac find_field :=
  repeat (erewrite field_skip; [| apply length_be_bytes | simpl; lia]; simpl Nat.sub);
  rewrite field_here by apply length_be_bytes;
  reflexivity.

Lemma length_header_bytes h : length (Build.header_bytes h) = 30%nat.
Proof. unfold Build.header_bytes. rewrite !length_app, !length_be_bytes. reflexivity. Qed.

(** [struct.unpack] reads back the fields laid out by the format. *)
Lemma header_fields h :
  let hb := Build.header_bytes h in
  field hb 0 1 = Build.be_bytes 1 (unk1 h) /\
  field hb 1 1 = Build.be_bytes 1 (type h) /\
  field hb 2 8 = Build.be_bytes 8 (filesize h) /\
  field hb 10 8 = Build.be_bytes 8 (timestamp h) /\
  field hb 18 4 = Build.be_bytes 4 (attr h) /\
  field hb 22 2 = Build.be_bytes 2 (namelen h) /\
  field hb 24 2 = Build.be_bytes 2 (uid h) /\
  field hb 26 2 = Build.be_bytes 2 (gid h) /\
  field hb 28 2 = Build.be_bytes 2 (filemode h).
Proof.
  intros hb. subst hb. unfold Build.header_bytes.
  rewrite <- (app_nil_r (Build.be_bytes 2 (filemode h))).
  repeat split; find_field.
Qed.

Lemma unpack_header_bytes h :
  in_format h -> unpack_header (Build.header_bytes h) = Ok (set_name h []).
Proof.
  intros (H1 & H2 & H3 & H4 & H5 & H6 & H7 & H8 & H9).
  unfold unpack_header. rewrite length_header_bytes. simpl Nat.eqb. cbv iota.
  destruct (header_fields h) as (-> & -> & -> & -> & -> & -> & -> & -> & ->).
  rewrite !be_uint_be_bytes_small, !be_sint_be_bytes_16 by assumption.
  reflexivity.
Qed.

Lemma split_at {A} (a r : list A) n :
  Z.of_nat (length a) = n ->
  firstn (Z.to_nat n) (a ++ r) = a /\ skipn (Z.to_nat n) (a ++ r) = r.
Proof. intros <-. rewrite Nat2Z.id. now apply pbzx_facts.split_exact. Qed.

Lemma set_name_same h : set_name (set_name h []) (name h) = h.
Proof. destruct h; reflexivity. Qed.

(** The header of an entry read off the plain stream. *)
Lemma flat_readheader_entry h (nm rest : bytes) :
  in_format h -> namelen h = len nm -> utf8_decode nm = Some (name h) ->
  readheader (F := bytes) (Build.header_bytes h ++ nm ++ rest) = Ok (Some h, rest).
Proof.
  intros Hf Hn Hd. unfold readheader.
  rewrite walker_facts.flat_read by lia.
  destruct (split_at (Build.header_bytes h) (nm ++ rest) (n := 30)) as [-> ->];
    [now rewrite length_header_bytes |].
  cbn [bind]. unfold len at 1. rewrite length_header_bytes.
  change (Z.of_nat 30 =? 0) with false. cbv iota.
  rewrite unpack_header_bytes by assumption. cbn [bind].
  change (namelen (set_name h [])) with (namelen h).
  rewrite walker_facts.flat_read by (rewrite Hn; apply len_nonneg).
  destruct (split_at nm rest (n := namelen h)) as [-> ->];
    [now rewrite Hn |].
  cbn [bind]. unfold decode_utf8. rewrite Hd. cbn [bind].
  now rewrite set_name_same.
Qed.

(** X12.  Reading a header is the inverse of laying it out: a stream that
    presents the thirty bytes of a header in the format [">BBQQLHhhH"], the
    UTF-8 bytes of its name and then more bytes gives back the header with
    its name, and is left at those other bytes. *)
Theorem readheader_round_trip
        (F : Type) (H : FileLike F) (models : F -> bytes -> Prop)
        (HL : Lawful models) (s : F) (h : Header) (nm rest : bytes) :
  in_format h -> namelen h = len nm -> utf8_decode nm = Some (name h) ->
  models s (Build.header_bytes h ++ nm ++ rest) ->
  exists s', readheader s = Ok (Some h, s') /\ models s' rest.
Proof.
  intros Hf Hn Hd M.
  pose proof (@walker_facts.sim_readheader _ _ _ HL s _ M) as Hs.
  rewrite flat_readheader_entry in Hs by assumption. exact Hs.
Qed.

Lemma readheader_round_trip_witness :
  in_format (Build.five_bytes 3) /\
  namelen (Build.five_bytes 3) = len (b_ "l") /\
  utf8_decode (b_ "l") = Some (name (Build.five_bytes 3)) /\
  models Build.stored (Build.opened Build.symlink_archive)
         (Build.header_bytes (Build.five_bytes 3) ++ b_ "l" ++ b_ "a/b/c") /\
  exists s',
    readheader (H := Build.codec_file_like) (Build.opened Build.symlink_archive)
    = Ok (Some (Build.five_bytes 3), s')
    /\ models Build.stored s' (b_ "a/b/c").
Proof.
  assert (H1 : in_format (Build.five_bytes 3))
    by (unfold in_format; simpl; lia).
  assert (H2 : namelen (Build.five_bytes 3) = len (b_ "l")) by reflexivity.
  assert (H3 : utf8_decode (b_ "l") = Some (name (Build.five_bytes 3)))
    by reflexivity.
  assert (M : models Build.stored (Build.opened Build.symlink_archive)
                (Build.header_bytes (Build.five_bytes 3) ++ b_ "l" ++ b_ "a/b/c"))
    by run_stream.
  split; [exact H1 | split; [exact H2 | split; [exact H3 | split; [exact M |]]]].
  exact (@readheader_round_trip _ Build.codec_file_like _
           (pbzx_facts.pbzx_lawful Build.stored) _ _ _ _ H1 H2 H3 M).
Defined.

(** ** A whole archive *)

Lemma kinds_cons e es k :
  kinds (e :: es) k = (if type (e_hdr e) =? k then 1 else 0) + kinds es k.
Proof.
  unfold kinds. simpl. destruct (type (e_hdr e) =? k); [| lia].
  unfold len. simpl length. lia.
Qed.

Lemma dict_incr_known a b c k :
  k = 1 \/ k = 2 \/ k = 3 ->
  dict_incr [(1, a); (2, b); (3, c)] k
  = Ok [(1, a + (if k =? 1 then 1 else 0)); (2, b + (if k =? 2 then 1 else 0));
        (3, c + (if k =? 3 then 1 else 0))].
Proof.
  intros [-> | [-> | ->]]; unfold dict_incr; simpl;
    now rewrite !Z.add_0_r.
Qed.

(** The dispatch of an entry whose payload is in front of the stream. *)
Lemma dispatch_spec_entry args e (rest : bytes) :
  well_formed e ->
  exists suffix evs,
    dispatch_spec args (e_hdr e) (e_payload e ++ rest) = Ok (suffix, evs, rest)
    /\ evs ++ list_entry args (e_hdr e) suffix = entry_output args e.
Proof.
  intros (_ & _ & Hs & _ & _ & Hl).
  unfold dispatch_spec, entry_output.
  destruct (split_at (e_payload e) rest (n := filesize (e_hdr e))) as [-> ->];
    [now rewrite Hs |].
  destruct (Z.eqb_spec (type (e_hdr e)) 3) as [E3 | E3].
  - unfold decode_utf8. specialize (Hl E3).
    destruct (utf8_decode (e_payload e)) as [link |]; [| contradiction].
    cbn [bind]. destruct (output_dir args); eauto.
  - destruct (type (e_hdr e) =? 1), (output_dir args); eauto.
Qed.

Lemma walk_loop_round {F} `{FileLike F} fuel args (w : @walk_state F) :
  walk_loop (S fuel) args w =
  bind (walk_step args w)
       (fun r => if fst r then walk_loop fuel args (snd r) else Ok (snd r)).
Proof.
  cbn [walk_loop]. destruct (walk_step args w) as [[c w1] | e |]; reflexivity.
Qed.

Lemma flat_walk_entries args : forall es a b c out,
  Forall well_formed es ->
  walk_loop (S (length es)) args
    (@mkWalk bytes (concat (map encode_entry es)) [(1, a); (2, b); (3, c)] out)
  = Ok (@mkWalk bytes []
          [(1, a + kinds es 1); (2, b + kinds es 2); (3, c + kinds es 3)]
          (out ++ concat (map (entry_output args) es))).
Proof.
  induction es as [| e es IH]; intros a b c out Hwf.
  - simpl. unfold kinds, len. simpl. now rewrite !Z.add_0_r, app_nil_r.
  - inversion Hwf as [| e' es' He Hes]; subst.
    pose proof He as (Hf & Hn & Hs & Hd & Hk & Hl).
    change (length (e :: es)) with (S (length es)).
    rewrite walk_loop_round. unfold walk_step. cbn [w_fh w_count w_out].
    change (concat (map encode_entry (e :: es)))
      with (encode_entry e ++ concat (map encode_entry es)).
    unfold encode_entry at 1. rewrite <- !app_assoc.
    rewrite flat_readheader_entry by assumption. cbn [bind].
    rewrite flat_dispatch_any by (rewrite Hs; apply len_nonneg).
    destruct (dispatch_spec_entry args (concat (map encode_entry es)) He)
      as (suffix & evs & -> & Hout).
    cbn [bind]. rewrite dict_incr_known by assumption. cbn [bind fst snd].
    rewrite IH by assumption. rewrite !kinds_cons, <- !Z.add_assoc.
    simpl concat. rewrite <- Hout. now rewrite <- !app_assoc.
Qed.



(** ** The listing helpers *)

Lemma text_eqb_eq a b : text_eqb a b = true <-> a = b.
Proof.
  unfold text_eqb. destruct (list_eq_dec Z.eq_dec a b); split; congruence.
Qed.

Lemma in_range_from n : forall a z,
  a <= z < a + Z.of_nat n -> In z (range_from n a).
Proof.
  induction n as [| n IH]; intros a z Hz; [lia |].
  simpl. destruct (Z.eq_dec a z) as [E | E]; [now left | right].
  apply IH. lia.
Qed.

Lemma in_upto n z : 0 <= z < Z.of_nat n -> In z (upto n).
Proof. intros Hz. apply in_range_from. lia. Qed.

Lemma in_upto_Z n z : 0 <= z < n -> In z (upto (Z.to_nat n)).
Proof. intros Hz. apply in_upto. rewrite Z2Nat.id; lia. Qed.

(** X14.  [entryname] gives every kind that a header can hold a name of
    its own: the three known kinds their words, every other kind its two
    hexadecimal digits between question marks, so that the listing tells
    all kinds apart. *)
Theorem entryname_tells_kinds_apart (a b : Z) :
  0 <= a < 256 -> 0 <= b < 256 -> entryname a = entryname b -> a = b.
Proof.
  intros Ha Hb E.
  assert (Hall : forallb (fun x => forallb (fun y =>
                   implb (text_eqb (entryname x) (entryname y)) (x =? y))
                   (upto 256)) (upto 256) = true) by (vm_compute; reflexivity).
  rewrite forallb_forall in Hall.
  specialize (Hall a (in_upto 256 Ha)). rewrite forallb_forall in Hall.
  specialize (Hall b (in_upto 256 Hb)).
  apply text_eqb_eq in E. rewrite E in Hall. simpl in Hall. lia.
Qed.

Lemma entryname_tells_kinds_apart_witness :
  0 <= 4 < 256 /\ 0 <= 0x40 < 256 /\
  entryname 4 = s_ "?04?" /\ entryname 0x40 = s_ "?40?" /\
  (entryname 4 = entryname 0x40 -> 4 = 0x40).
Proof.
  assert (H1 : 0 <= 4 < 256) by lia.
  assert (H2 : 0 <= 0x40 < 256) by lia.
  split; [exact H1 | split; [exact H2 |]].
  split; [reflexivity | split; [reflexivity |]].
  exact (entryname_tells_kinds_apart H1 H2).
Defined.

(** X15.  [modestring] writes every mode that a header can hold as
    exactly six octal digits, and the digits write the mode. *)
Theorem modestring_six_octal_digits (mode : Z) :
  0 <= mode < 2 ^ 16 ->
  len (modestring mode) = 6
  /\ Forall (fun c => 48 <= c <= 55) (modestring mode)
  /\ octal_value (modestring mode) = mode.
Proof.
  intros Hm.
  assert (Hall : forallb (fun m =>
                   (len (modestring m) =? 6)
                   && forallb (fun c => (48 <=? c) && (c <=? 55)) (modestring m)
                   && (octal_value (modestring m) =? m))
                   (upto (Z.to_nat (2 ^ 16))) = true) by (vm_compute; reflexivity).
  rewrite forallb_forall in Hall.
  specialize (Hall mode (in_upto_Z Hm)).
  apply andb_prop in Hall. destruct Hall as [Hall H3].
  apply andb_prop in Hall. destruct Hall as [H1 H2].
  split; [lia | split; [| lia]].
  apply Forall_forall. intros c Hc. rewrite forallb_forall in H2.
  specialize (H2 c Hc). lia.
Qed.

Lemma modestring_six_octal_digits_witness :
  0 <= 0x1ed < 2 ^ 16 /\ modestring 0x1ed = s_ "000755" /\
  octal_value (modestring 0x1ed) = 0x1ed.
Proof.
  assert (H1 : 0 <= 0x1ed < 2 ^ 16) by (simpl; lia).
  split; [exact H1 | split; [reflexivity |]].
  exact (proj2 (proj2 (modestring_six_octal_digits H1))).
Defined.

(** ** [makedirs] *)

Section MakedirsFacts.

Context {FS : Type} `{FileSystem FS}.

Lemma makedirs_loop_existing : forall parts path (fs : FS),
  (forall p, In p (paths_from path parts) -> os_access fs p = true) ->
  makedirs_loop fs path parts = OsOk fs.
Proof.
  induction parts as [| part parts IH]; intros path fs Hall; [reflexivity |].
  cbn [makedirs_loop]. rewrite (Hall (extend path part)) by (now left).
  simpl negb. cbv iota. apply IH. intros p Hp. apply Hall. now right.
Qed.

Lemma makedirs_loop_makes
      (law : forall (fs fs' : FS) p,
          os_mkdir fs p = OsOk fs' ->
          os_access fs' p = true
          /\ forall q, os_access fs q = true -> os_access fs' q = true) :
  forall parts path (fs fs' : FS),
  makedirs_loop fs path parts = OsOk fs' ->
  (forall p, In p (paths_from path parts) -> os_access fs' p = true)
  /\ (forall q, os_access fs q = true -> os_access fs' q = true).
Proof.
  induction parts as [| part parts IH]; intros path fs fs' E.
  - injection E as <-. split; [intros p [] | auto].
  - cbn [makedirs_loop] in E.
    destruct (os_access fs (extend path part)) eqn:A; simpl negb in E; cbv iota in E.
    + destruct (IH _ _ _ E) as [Hp Hq]. split; [| exact Hq].
      intros p [<- | Hin]; [now apply Hq | now apply Hp].
    + destruct (os_mkdir fs (extend path part)) as [fs1 | e p] eqn:Mk;
        [| discriminate].
      destruct (law _ _ _ Mk) as [Hnew Hold].
      destruct (IH _ _ _ E) as [Hp Hq]. split.
      * intros p [<- | Hin]; [now apply Hq | now apply Hp].
      * intros q Hq0. apply Hq. now apply Hold.
Qed.

End MakedirsFacts.

(** X16.  [makedirs] on a path whose every prefix is there makes no
    directory and leaves the file system as it is. *)
Theorem makedirs_existing
        (FS : Type) (H : FileSystem FS) (fs : FS) (fullpath : text) :
  (forall p, In p (prefixes fullpath) -> os_access fs p = true) ->
  makedirs fs fullpath = OsOk fs.
Proof. intros Hall. unfold makedirs. now apply makedirs_loop_existing. Qed.

Lemma makedirs_existing_witness :
  (forall p, In p (prefixes (s_ "out/a")) ->
             os_access [s_ "out/a"; s_ "out"] p = true) /\
  makedirs [s_ "out/a"; s_ "out"] (s_ "out/a") = OsOk [s_ "out/a"; s_ "out"].
Proof.
  assert (H1 : forall p, In p (prefixes (s_ "out/a")) ->
                         os_access [s_ "out/a"; s_ "out"] p = true).
  { intros p Hp. vm_compute in Hp. destruct Hp as [<- | [<- | []]]; reflexivity. }
  split; [exact H1 |].
  exact (@makedirs_existing _ listed_paths _ _ H1).
Defined.

(** X17.  On a file system where a directory that was made is there and
    nothing that was there goes away, [makedirs] returns only when every
    prefix of the path is there, and what was there before still is. *)
Theorem makedirs_makes_every_prefix
        (FS : Type) (H : FileSystem FS) (fs fs' : FS) (fullpath : text) :
  (forall (a b : FS) p,
      os_mkdir a p = OsOk b ->
      os_access b p = true /\ forall q, os_access a q = true -> os_access b q = true) ->
  makedirs fs fullpath = OsOk fs' ->
  (forall p, In p (prefixes fullpath) -> os_access fs' p = true)
  /\ (forall q, os_access fs q = true -> os_access fs' q = true).
Proof.
  intros law E. unfold makedirs in E.
  exact (makedirs_loop_makes law _ _ _ E).
Qed.

Lemma listed_paths_law (a b : list text) p :
  os_mkdir a p = OsOk b ->
  os_access b p = true /\ forall q, os_access a q = true -> os_access b q = true.
Proof.
  simpl. destruct (negb (nonempty p)); [discriminate |].
  destruct (existsb (text_eqb p) a); [discriminate |].
  intros E. injection E as <-. simpl. split.
  - assert (Hp : text_eqb p p = true) by now apply text_eqb_eq.
    now rewrite Hp.
  - intros q ->. apply orb_true_r.
Qed.

Lemma makedirs_makes_every_prefix_witness :
  makedirs [s_ "out"] (s_ "out/a/b") = OsOk [s_ "out/a/b"; s_ "out/a"; s_ "out"] /\
  (forall p, In p (prefixes (s_ "out/a/b")) ->
             os_access [s_ "out/a/b"; s_ "out/a"; s_ "out"] p = true).
Proof.
  assert (E : makedirs [s_ "out"] (s_ "out/a/b")
              = OsOk [s_ "out/a/b"; s_ "out/a"; s_ "out"]) by reflexivity.
  split; [exact E |].
  exact (proj1 (@makedirs_makes_every_prefix _ listed_paths _ _ _
                  listed_paths_law E)).
Defined.

(** *** Absolute paths *)

Lemma rfind_from_bounds c : forall s i last,
  last < i ->
  rfind_from c s i last = last \/ i <= rfind_from c s i last < i + len s.
Proof.
  induction s as [| x r IH]; intros i last Hl; [now left |].
  cbn [rfind_from]. unfold len. simpl length.
  destruct (x =? c).
  - destruct (IH (i + 1) i ltac:(lia)) as [-> | Hb]; right; unfold len in *; lia.
  - destruct (IH (i + 1) last ltac:(lia)) as [-> | Hb]; [now left | right].
    unfold len in *; lia.
Qed.

Lemma rstrip_nil c : forall s, rstrip c s = [] -> s = repeat c (length s).
Proof.
  induction s as [| x r IH]; intros E; [reflexivity |].
  cbn [rstrip] in E. destruct (rstrip c r) as [| y r'] eqn:R; [| discriminate].
  destruct (Z.eqb_spec x c) as [-> | Hx]; [| discriminate].
  simpl. now rewrite <- IH.
Qed.

(** The directory of an absolute path is an absolute path. *)
Lemma dirname_absolute r : exists t, dirname (47 :: r) = 47 :: t.
Proof.
  unfold dirname, rfind. cbn [rfind_from]. change (47 =? 47) with true. cbv iota.
  change (0 + 1) with 1.
  set (i := rfind_from 47 r 1 0 + 1).
  assert (Hi : 1 <= i <= len (47 :: r)).
  { subst i. unfold len. simpl length.
    destruct (rfind_from_bounds 47 r (i := 1) (last := 0) ltac:(lia)) as [-> | Hb];
      unfold len in *; lia. }
  rewrite py_slice_inside by lia.
  replace (Z.to_nat (i - 0)) with (S (Z.to_nat (i - 1))) by lia.
  change (skipn (Z.to_nat 0) (47 :: r)) with (47 :: r). cbn [firstn].
  set (t0 := firstn (Z.to_nat (i - 1)) r).
  destruct (nonempty (47 :: t0) && negb (text_eqb (47 :: t0)
                                           (repeat 47 (length (47 :: t0))))) eqn:C;
    [| now exists t0].
  apply andb_prop in C. destruct C as [_ C].
  cbn [rstrip]. destruct (rstrip 47 t0) as [| y r'] eqn:R; [| now eexists].
  apply rstrip_nil in R. exfalso.
  assert (Heq : text_eqb (47 :: t0) (repeat 47 (length (47 :: t0))) = true).
  { apply text_eqb_eq. simpl. now rewrite <- R. }
  rewrite Heq in C. discriminate.
Qed.

(** X18.  On a file system where the empty path is no file and cannot be
    made, [makedirs] fails on every path that starts with a slash, at its
    first step: the first part of such a path is empty.  The directory of
    an absolute file name is such a path, so that no file or link with an
    absolute name has its directory made. *)
Theorem makedirs_fails_on_absolute_path
        (FS : Type) (H : FileSystem FS) (fs : FS) (r : text) :
  os_access fs [] = false -> os_mkdir fs [] = OsError ENOENT [] ->
  makedirs fs (47 :: r) = OsError ENOENT []
  /\ prepare fs (47 :: r) = OsError ENOENT []
  /\ forall nm, prepare fs (join_path (47 :: r) nm) = OsError ENOENT [].
Proof.
  intros Ha Hm.
  assert (Hmk : forall t, makedirs fs (47 :: t) = OsError ENOENT []).
  { intros t. unfold makedirs. cbn [split]. change (47 =? 47) with true. cbv iota.
    cbn [makedirs_loop]. change (extend [] []) with (@nil Z).
    rewrite Ha, Hm. reflexivity. }
  split; [apply Hmk | split].
  - unfold prepare. destruct (dirname_absolute r) as [t ->]. apply Hmk.
  - intros nm. unfold prepare, join_path. cbn [app].
    destruct (dirname_absolute (r ++ s_ "/" ++ nm)) as [t ->]. apply Hmk.
Qed.

Lemma makedirs_fails_on_absolute_path_witness :
  os_access (@nil text) [] = false /\
  os_mkdir (@nil text) [] = OsError ENOENT [] /\
  prepare (@nil text) (s_ "/tmp/out/x.txt") = OsError ENOENT [].
Proof.
  assert (H1 : os_access (@nil text) [] = false) by reflexivity.
  assert (H2 : os_mkdir (@nil text) [] = OsError ENOENT []) by reflexivity.
  split; [exact H1 | split; [exact H2 |]].
  exact (proj1 (proj2 (@makedirs_fails_on_absolute_path _ listed_paths _
                         (s_ "tmp/out/x.txt") H1 H2))).
Defined.
